(** * web-login-manager: the cookie jar and the login handshake of [src/index.ts]

    A shallow embedding of the class [WebLoginManager]: its private cookie
    array, [getCookies], [updateCookies], [login] and [fetch], together with
    the JavaScript string built-ins these methods call.  The HTTP transport
    (node-fetch), the clock ([Date.now]), the date parser ([new Date(s)]) and,
    for field names that are patterns themselves, the pattern engine are the
    platform; they are an interface the manager is parametrised by. *)

From Stdlib Require Import String Ascii List ZArith Bool Lia DecimalString.
Import ListNotations.

Local Open Scope list_scope.
Local Open Scope Z_scope.

Infix "+:+" := String.append (at level 60, right associativity).

(** ** JavaScript values used by the manager *)

(** A JS number as the manager meets it: the time value of a [Date] is an
    integral number of milliseconds, or [NaN] for an invalid date. *)
Inductive number : Type :=
| NaN : number
| Num : Z -> number.

(** [d >= e] for a clock reading [d]; every comparison with [NaN] is false. *)
Definition ge_number (d : Z) (e : number) : bool :=
  match e with
  | NaN => false
  | Num z => z <=? d
  end.

(** ** String built-ins

    A string is a sequence of code units; the code units of the texts handled
    here (header lines, form bodies) are below 256, so [ascii] holds one. *)
Module JS.

(** White space and line terminators below 256: TAB, LF, VT, FF, CR, SP and
    NO-BREAK SPACE.  This is the class of [\s] and what [trim] strips. *)
Definition isWhiteSpace (c : ascii) : bool :=
  let n := nat_of_ascii c in
  ((9 <=? n) && (n <=? 13) || (n =? 32) || (n =? 160))%nat.

(** The class [\w]: ASCII letters, digits and underscore. *)
Definition isWordChar (c : ascii) : bool :=
  let n := nat_of_ascii c in
  ((48 <=? n) && (n <=? 57) || (65 <=? n) && (n <=? 90)
   || (97 <=? n) && (n <=? 122) || (n =? 95))%nat.

Fixpoint trimStart (s : string) : string :=
  match s with
  | EmptyString => EmptyString
  | String c s' => if isWhiteSpace c then trimStart s' else s
  end.

Fixpoint trimEnd (s : string) : string :=
  match s with
  | EmptyString => EmptyString
  | String c s' =>
      match trimEnd s' with
      | EmptyString => if isWhiteSpace c then EmptyString else String c EmptyString
      | t => String c t
      end
  end.

(** [s.trim()] *)
Definition trim (s : string) : string := trimEnd (trimStart s).

(** [s.substring(n)]: what is left after the first [n] code units. *)
Fixpoint drop (n : nat) (s : string) : string :=
  match n, s with
  | O, _ => s
  | S _, EmptyString => EmptyString
  | S k, String _ s' => drop k s'
  end.

(** The worker of [split]: [cur] is the piece being collected, [skip] the
    number of code units of a separator occurrence still to be passed. *)
Fixpoint split_go (sep : string) (skip : nat) (cur : string) (s : string)
  : list string :=
  match s with
  | EmptyString => [cur]
  | String c s' =>
      match skip with
      | S k => split_go sep k cur s'
      | O =>
          if prefix sep s
          then cur :: split_go sep (String.length sep - 1) EmptyString s'
          else split_go sep 0 (cur +:+ String c EmptyString) s'
      end
  end.

(** [s.split(sep)] for a non-empty separator string (the manager only
    splits at ["="], [";"] and ["expires="]): the pieces between the
    occurrences of [sep], found left to right without overlap.  The result
    is never empty. *)
Definition split (sep s : string) : list string := split_go sep 0 EmptyString s.

(** [a[i]]: reading an array past its end gives [undefined]. *)
Definition at_index (a : list string) (i : nat) : option string := nth_error a i.

(** [s.includes(sub)] *)
Fixpoint includes (s sub : string) : bool :=
  prefix sub s ||
  match s with
  | EmptyString => false
  | String _ s' => includes s' sub
  end.

(** [a.join(sep)] *)
Fixpoint join (sep : string) (a : list string) : string :=
  match a with
  | [] => EmptyString
  | [x] => x
  | x :: a' => x +:+ sep +:+ join sep a'
  end.

(** The text a word run [\w+] takes at the head of [s] (greedy). *)
Fixpoint wordRun (s : string) : string :=
  match s with
  | EmptyString => EmptyString
  | String c s' => if isWordChar c then String c (wordRun s') else EmptyString
  end.

(** Pass a literal text at the head of [s]. *)
Fixpoint literal (lit s : string) : option string :=
  match lit, s with
  | EmptyString, _ => Some s
  | String a lit', String b s' => if Ascii.eqb a b then literal lit' s' else None
  | String _ _, EmptyString => None
  end.

(** Pass one [\S] at the head of [s]. *)
Definition nonSpace (s : string) : option string :=
  match s with
  | String c s' => if isWhiteSpace c then None else Some s'
  | EmptyString => None
  end.

End JS.

(** The two quote marks, as one-character strings. *)
Definition dq : string := String (ascii_of_nat 34) EmptyString.
Definition sq : string := String (ascii_of_nat 39) EmptyString.

(** ** Data model *)

(** [interface ICookie] *)
Record ICookie : Type := mkCookie {
  name : string;
  value : string;
  expires : number;
}.

(** [interface IWebLoginOptions]; [middlewaretokenName] is optional. *)
Record IWebLoginOptions : Type := mkOptions {
  baseURL : string;
  username : string;
  password : string;
  loginPath : string;
  sessionidCookieName : string;
  middlewaretokenName : option string;
}.

(** The fields of node-fetch's [RequestInit] that the manager sets or
    forwards, as in the object [fetch] builds for the transport.  An absent
    field is [None]; [headers] is there a plain object, kept as the list of
    its own string-keyed properties, each value as the string the
    transport's [Headers] makes of it. *)
Record RequestInit : Type := mkInit {
  method : option string;
  redirect : option string;
  headers : list (string * string);
  body : option string;
}.

(** What the manager reads of a node-fetch [Response]:
    [headers.raw()["set-cookie"]] ([None] when the header is absent) and the
    body, through [res.text()].  That promise resolves with [text], or
    rejects when the body cannot be read (the connection drops, say), which
    is [text_rejects]. *)
Record Response : Type := mkResponse {
  set_cookie : option (list string);
  text : string;
  text_rejects : bool;
}.

(** What a caller may give as [headers] (node-fetch's [HeadersInit]): a plain
    object of strings, a [Headers] instance, or an array of rows, each an
    array of strings. *)
Inductive HeadersInit : Type :=
| HeadersObject : list (string * string) -> HeadersInit
| HeadersInstance : list (string * string) -> HeadersInit
| HeadersArray : list (list string) -> HeadersInit.

(** The [RequestInit] a caller hands to [fetch]; same fields, with [headers]
    in any of its three forms or absent. *)
Record RequestOptions : Type := mkRequestOptions {
  o_method : option string;
  o_redirect : option string;
  o_headers : option HeadersInit;
  o_body : option string;
}.

(** The platform under the manager: the clock, the date parser, the
    transport and the pattern engine.  [node_fetch url o w] is the exchange
    started by [fetch(url, o)]; its promise resolves with a response or
    rejects ([None]), and the world moves on.  [RegExp_other nm] is what the
    engine makes of the token pattern for a field name [nm] that has pattern
    syntax characters in it: [None] when [new RegExp] throws a [SyntaxError],
    else the function from a text to the value of [regexp ? regexp[1] : ""]
    after [exec], a string or [undefined]. *)
Class Platform : Type := {
  World : Type;
  Date_now : World -> Z * World;
  Date_valueOf : string -> number;
  node_fetch : string -> RequestInit -> World -> option Response * World;
  RegExp_other : string -> option (string -> option string);
}.

(** ** The cookie array *)

(** The callback of [this.cookies.forEach] in [getCookies]: an expired cookie
    has its value cleared. *)
Definition mark_expired (d : Z) (c : ICookie) : ICookie :=
  if ge_number d (expires c)
  then {| name := name c; value := EmptyString; expires := expires c |}
  else c.

(** [`${c.name}=${c.value}`] *)
Definition pair_text (c : ICookie) : string := name c +:+ "=" +:+ value c.

Definition has_value (c : ICookie) : bool := negb (String.eqb (value c) EmptyString).

(** [getCookies] at clock reading [d]: the returned header text and the
    array left in [this.cookies]. *)
Definition getCookies (d : Z) (cookies : list ICookie) : string * list ICookie :=
  let marked := map (mark_expired d) cookies in
  (JS.join "; " (map pair_text marked), filter has_value marked).

(** What a read at [d] leaves in the array: a cookie that is not expired and
    has a value. *)
Definition kept (d : Z) (c : ICookie) : bool :=
  negb (ge_number d (expires c)) && has_value c.

(** [this.cookies.find(c => c.name === name)] *)
Definition find_cookie (nm : string) (cookies : list ICookie) : option ICookie :=
  find (fun c => String.eqb (name c) nm) cookies.

(** The two assignments [oldCookie.value = value; oldCookie.expires = expires]
    on the object [find] returned, which is the first one of that name. *)
Fixpoint assign_first (nm v : string) (e : number) (cookies : list ICookie)
  : list ICookie :=
  match cookies with
  | [] => []
  | c :: rest =>
      if String.eqb (name c) nm
      then {| name := name c; value := v; expires := e |} :: rest
      else c :: assign_first nm v e rest
  end.

(** Overwrite the old cookie or push a new one. *)
Definition store_cookie (c : ICookie) (cookies : list ICookie) : list ICookie :=
  match find_cookie (name c) cookies with
  | Some _ => assign_first (name c) (value c) (expires c) cookies
  | None => cookies ++ [c]
  end.

(** Store a run of cookies, one after the other. *)
Definition store_all (cs : list ICookie) (cookies : list ICookie) : list ICookie :=
  fold_left (fun acc c => store_cookie c acc) cs cookies.

(** What can be thrown: a [TypeError] from a method call on [undefined], the
    rejection of the transport (of an exchange, or of reading a body), and
    the [SyntaxError] of [new RegExp]. *)
Inductive error : Type :=
| TypeError : error
| FetchError : error
| SyntaxError : error.

Inductive completion (A : Type) : Type :=
| Normal : A -> completion A
| Throw : error -> completion A.
Arguments Normal {A} _.
Arguments Throw {A} _.

Section Manager.
Context `{P : Platform}.

(** The three [const]s computed from one raw header in [updateCookies];
    [None] is the [TypeError] of [undefined.split]. *)
Definition parse_cookie (cookie : string) : option ICookie :=
  let name := JS.trim (hd EmptyString (JS.split "=" cookie)) in
  match JS.at_index (JS.split "=" cookie) 1 with
  | None => None
  | Some v =>
      let value := JS.trim (hd EmptyString (JS.split ";" v)) in
      match JS.at_index (JS.split "expires=" cookie) 1 with
      | None => None
      | Some e =>
          let expires := Date_valueOf (JS.trim (hd EmptyString (JS.split ";" e))) in
          Some {| name := name; value := value; expires := expires |}
      end
  end.

(** [cookies.forEach(...)]: a throw leaves the loop with the cookies stored
    so far. *)
Fixpoint forEach_cookie (raw : list string) (cookies : list ICookie)
  : completion unit * list ICookie :=
  match raw with
  | [] => (Normal tt, cookies)
  | cookie :: rest =>
      match parse_cookie cookie with
      | None => (Throw TypeError, cookies)
      | Some c => forEach_cookie rest (store_cookie c cookies)
      end
  end.

(** [updateCookies] on the raw [set-cookie] values of a response. *)
Definition updateCookies (raw : option (list string)) (cookies : list ICookie)
  : completion unit * list ICookie :=
  match raw with
  | None => (Normal tt, cookies)
  | Some l => forEach_cookie l cookies
  end.

(** The cookies of the headers [forEach] gets through before a throw. *)
Fixpoint parsed_prefix (raw : list string) : list ICookie :=
  match raw with
  | [] => []
  | cookie :: rest =>
      match parse_cookie cookie with
      | None => []
      | Some c => c :: parsed_prefix rest
      end
  end.

(** The two operations on the cookie array, and runs of them. *)
Inductive jar_op : Type :=
| Merge : option (list string) -> jar_op
| Read : Z -> jar_op.

Definition run_op (cookies : list ICookie) (op : jar_op) : list ICookie :=
  match op with
  | Merge raw => snd (updateCookies raw cookies)
  | Read d => snd (getCookies d cookies)
  end.

Definition run (ops : list jar_op) (cookies : list ICookie) : list ICookie :=
  fold_left run_op ops cookies.

(** A response every [set-cookie] value of which [updateCookies] can take
    apart. *)
Definition well_formed (res : Response) : Prop :=
  forall raw, set_cookie res = Some raw ->
              Forall (fun cookie => parse_cookie cookie <> None) raw.

(** A site that answers every request, with well-formed cookies and a body
    that can be read. *)
Definition reliable : Prop :=
  forall url o w, exists res w',
    node_fetch url o w = (Some res, w') /\ well_formed res /\
    text_rejects res = false.

(** *** The instance: its cookie array, the world it runs in, and (ghost)
    the requests it has handed to the transport. *)
Record Manager : Type := mkManager {
  this_cookies : list ICookie;
  world : World;
  sent : list (string * RequestInit);
}.

Definition M (A : Type) : Type := Manager -> completion A * Manager.

Definition ret {A} (a : A) : M A := fun m => (Normal a, m).

Definition bind {A B} (c : M A) (k : A -> M B) : M B :=
  fun m =>
    match c m with
    | (Normal a, m') => k a m'
    | (Throw e, m') => (Throw e, m')
    end.

Notation "x <- c ;; k" := (bind c (fun x => k))
  (at level 61, c at next level, right associativity).

Definition getCookiesM : M string :=
  fun m =>
    let (d, w) := Date_now (world m) in
    let (a, cs) := getCookies d (this_cookies m) in
    (Normal a, {| this_cookies := cs; world := w; sent := sent m |}).

(** The header text [getCookies] returns in state [m]. *)
Definition cookie_header (m : Manager) : string :=
  fst (getCookies (fst (Date_now (world m))) (this_cookies m)).

Definition updateCookiesM (res : Response) : M unit :=
  fun m =>
    let (r, cs) := updateCookies (set_cookie res) (this_cookies m) in
    (r, {| this_cookies := cs; world := world m; sent := sent m |}).

(** The call of node-fetch's [fetch(url, o)]. *)
Definition transport (url : string) (o : RequestInit) : M Response :=
  fun m =>
    let (r, w) := node_fetch url o (world m) in
    let m' := {| this_cookies := this_cookies m; world := w;
                 sent := sent m ++ [(url, o)] |} in
    match r with
    | Some res => (Normal res, m')
    | None => (Throw FetchError, m')
    end.

(** [{ ...h, cookie: v }] *)
Fixpoint set_property (k v : string) (h : list (string * string))
  : list (string * string) :=
  match h with
  | [] => [(k, v)]
  | (k', v') :: h' =>
      if String.eqb k' k then (k, v) :: h' else (k', v') :: set_property k v h'
  end.

(** [h[k]]: the value a plain object has under a key. *)
Fixpoint get_property (k : string) (h : list (string * string)) : option string :=
  match h with
  | [] => None
  | (k', v) :: h' => if String.eqb k' k then Some v else get_property k h'
  end.

(** The key an array has for its element [i]. *)
Definition index_key (i : nat) : string := NilEmpty.string_of_uint (Nat.to_uint i).

(** The own properties of an array of rows, from index [i] on: each row
    under its index, as the string made of it (its elements joined by
    commas). *)
Fixpoint array_properties (i : nat) (rows : list (list string))
  : list (string * string) :=
  match rows with
  | [] => []
  | row :: rest => (index_key i, JS.join "," row) :: array_properties (S i) rest
  end.

(** [{ ...h }] for [h = options?.headers]: the own string-keyed properties
    the spread copies.  A plain object gives its properties, an array its
    elements under their indices; a [Headers] instance keeps its entries out
    of its own string-keyed properties and gives none; [undefined] gives
    none. *)
Definition spread_headers (h : option HeadersInit) : list (string * string) :=
  match h with
  | None => []
  | Some (HeadersObject props) => props
  | Some (HeadersInstance _) => []
  | Some (HeadersArray rows) => array_properties 0 rows
  end.

(** [{ ...options, headers: { ...options?.headers, cookie } }] *)
Definition with_cookie (options : option RequestOptions) (cookie : string)
  : RequestInit :=
  match options with
  | None => {| method := None; redirect := None;
               headers := [("cookie"%string, cookie)]; body := None |}
  | Some o => {| method := o_method o; redirect := o_redirect o;
                 headers := set_property "cookie" cookie (spread_headers (o_headers o));
                 body := o_body o |}
  end.

(** [fetch(path, options, true)]: lines 56-63, the part of [fetch] after
    the login decision. *)
Definition fetch_skipLogin (cfg : IWebLoginOptions) (path : string)
    (options : option RequestOptions) : M Response :=
  cookie <- getCookiesM ;;
  res <- transport (baseURL cfg +:+ path) (with_cookie options cookie) ;;
  _ <- updateCookiesM res ;;
  ret res.

(** Truthiness of [this.middlewaretoken]: [undefined] and the empty string
    are falsy. *)
Definition truthy (o : option string) : bool :=
  match o with
  | Some (String _ _) => true
  | _ => false
  end.

(** [`${x}`] for [x : string | undefined] *)
Definition template (o : option string) : string :=
  match o with
  | Some s => s
  | None => "undefined"%string
  end.

(** One attempt of the pattern [`${nm}\S value=\S(\w+)`] at the head of
    [s], giving capture group 1, for a field name [nm] free of pattern
    syntax characters (see [literal_name] and [new_RegExp]): the name is
    then literal text in the pattern. *)
Definition match_at (nm s : string) : option string :=
  match JS.literal nm s with
  | None => None
  | Some r1 =>
      match JS.nonSpace r1 with
      | None => None
      | Some r2 =>
          match JS.literal " value=" r2 with
          | None => None
          | Some r3 =>
              match JS.nonSpace r3 with
              | None => None
              | Some r4 =>
                  match JS.wordRun r4 with
                  | EmptyString => None
                  | w => Some w
                  end
              end
          end
      end
  end.

(** [r.exec(text)] on the fresh pattern ([lastIndex] 0): the leftmost
    match, [None] for [null]. *)
Fixpoint RegExp_exec (nm s : string) : option string :=
  match match_at nm s with
  | Some w => Some w
  | None =>
      match s with
      | EmptyString => None
      | String _ s' => RegExp_exec nm s'
      end
  end.

(** [token = regexp ? regexp[1] : ""] *)
Definition extract_token (nm text : string) : string :=
  match RegExp_exec nm text with
  | Some w => w
  | None => EmptyString
  end.

(** The pattern syntax characters of ECMAScript. *)
Definition syntax_character (c : ascii) : bool :=
  existsb (Ascii.eqb c)
    (list_ascii_of_string "^$\.*+?()[]{}|").

Definition literal_name (nm : string) : bool :=
  forallb (fun c => negb (syntax_character c)) (list_ascii_of_string nm).

(** [new RegExp(`${nm}\S value=\S(\w+)`, "g")], as the function from a text
    to the value of [regexp ? regexp[1] : ""] for [regexp = r.exec(text)];
    [None] when the constructor throws.  For a name free of pattern syntax
    characters this is the search for the literal name; for any other name
    it is what the engine of the platform says. *)
Definition new_RegExp (nm : string) : option (string -> option string) :=
  if literal_name nm then Some (fun text => Some (extract_token nm text))
  else RegExp_other nm.

Definition throw {A} (e : error) : M A := fun m => (Throw e, m).

(** [loginOptions], with the text that [${token}] gives. *)
Definition loginOptions (cfg : IWebLoginOptions) (token : string) : RequestOptions :=
  {| o_method := Some "POST"%string;
     o_redirect := Some "manual"%string;
     o_headers :=
       Some (HeadersObject [("content-type", "application/x-www-form-urlencoded")%string]);
     o_body := Some (template (middlewaretokenName cfg) +:+ "=" +:+ token
                     +:+ "&username=" +:+ username cfg
                     +:+ "&password=" +:+ password cfg) |}.

(** [login].  After the page has arrived, the pattern is built (which may
    throw), then the body is read (which may reject), then the pattern is
    run on it. *)
Definition login (cfg : IWebLoginOptions) : M unit :=
  token <- (if truthy (middlewaretokenName cfg)
            then res <- fetch_skipLogin cfg (loginPath cfg) None ;;
                 match new_RegExp (template (middlewaretokenName cfg)) with
                 | None => throw SyntaxError
                 | Some exec =>
                     if text_rejects res then throw FetchError
                     else ret (exec (text res))
                 end
            else ret (Some EmptyString)) ;;
  _ <- fetch_skipLogin cfg (loginPath cfg) (Some (loginOptions cfg (template token))) ;;
  ret tt.

(** [fetch].  [login] calls it with [skipLogin = true] only, where it is
    [fetch_skipLogin], so the two methods are laid out one after the other. *)
Definition fetch (cfg : IWebLoginOptions) (path : string)
    (options : option RequestOptions) (skipLogin : bool) : M Response :=
  _ <- (if skipLogin then ret tt
        else cookies <- getCookiesM ;;
             if JS.includes cookies (sessionidCookieName cfg) then ret tt
             else login cfg) ;;
  fetch_skipLogin cfg path options.

End Manager.

Arguments Manager : clear implicits.
Arguments Manager {P}.

(** ** The wording of the interface description, for comparison

    "name (substring before the first [=]), value (substring between the
    first [=] and the first following [;]), expiry (substring following the
    literal token [expires=] up to the next [;], parsed as a date)". *)
Module Spec.

(** The text of [s] before the first occurrence of [sep] (all of [s] when
    there is none). *)
Fixpoint before (sep s : string) : string :=
  match s with
  | EmptyString => EmptyString
  | String c s' => if prefix sep s then EmptyString else String c (before sep s')
  end.

(** The text of [s] after the first occurrence of [sep]. *)
Fixpoint after (sep s : string) : option string :=
  if prefix sep s then Some (JS.drop (String.length sep) s)
  else match s with
       | EmptyString => None
       | String _ s' => after sep s'
       end.

Definition cookie_name (h : string) : string := before "=" h.

Definition cookie_value (h : string) : option string :=
  option_map (before ";") (after "=" h).

Definition cookie_expiry_text (h : string) : option string :=
  option_map (before ";") (after "expires=" h).

(** The cookie the description says is stored for header [h]. *)
Definition stored `{P : Platform} (h : string) : option ICookie :=
  match cookie_value h, cookie_expiry_text h with
  | Some v, Some e =>
      Some {| name := cookie_name h; value := v; expires := Date_valueOf e |}
  | _, _ => None
  end.

(** The active set: the cookies that are not expired at [d]. *)
Definition active (d : Z) (cookies : list ICookie) : list ICookie :=
  filter (fun c => negb (ge_number d (expires c))) cookies.

(** "the non-expired entries joined as name=value pairs separated by [; ]" *)
Definition header_value (d : Z) (cookies : list ICookie) : string :=
  JS.join "; " (map pair_text (active d cookies)).

(** "the active set contains a cookie with the given name" *)
Definition hasActive (d : Z) (nm : string) (cookies : list ICookie) : bool :=
  existsb (fun c => String.eqb (name c) nm) (active d cookies).

End Spec.

(** ** A small site to run the manager against

    The clock advances by one millisecond at every reading.  The site answers
    every POST with a session cookie and every other request with its login
    page, which sets a CSRF cookie and carries the hidden form field. *)
Module Demo.

(** The one field name with pattern syntax characters that the
    demonstrations use is [csrf(token]; the pattern made of it leaves a group
    open, and [new RegExp] throws. *)
Definition pattern_table (nm : string) : option (string -> option string) := None.

(** The dates the site uses, with their time values. *)
Definition date_table (s : string) : number :=
  if String.eqb s "Wed, 01 Jan 2025 00:00:00 GMT" then Num 1735689600000
  else if String.eqb s "Thu, 01 Jan 1970 00:00:01 GMT" then Num 1000
  else NaN.

Definition login_page : Response :=
  {| set_cookie := Some ["csrftoken=c5rf; expires=Wed, 01 Jan 2025 00:00:00 GMT; Path=/"%string];
     text := "<input type=" +:+ dq +:+ "hidden" +:+ dq
             +:+ " name=" +:+ dq +:+ "csrfmiddlewaretoken" +:+ dq
             +:+ " value=" +:+ dq +:+ "abc123" +:+ dq +:+ ">";
     text_rejects := false |}.

Definition logged_in : Response :=
  {| set_cookie := Some ["sessionid=s3cr3t; expires=Wed, 01 Jan 2025 00:00:00 GMT; HttpOnly; Path=/"%string];
     text := EmptyString;
     text_rejects := false |}.

Definition respond (o : RequestInit) : Response :=
  match method o with
  | Some m => if String.eqb m "POST" then logged_in else login_page
  | None => login_page
  end.

Definition site : Platform :=
  {| World := Z;
     Date_now := fun w => (w, w + 1);
     Date_valueOf := date_table;
     node_fetch := fun _ o w => (Some (respond o), w);
     RegExp_other := pattern_table |}.

(** A site whose pages carry no form token and set no cookie. *)
Definition plain_page : Response :=
  {| set_cookie := None; text := "<html>welcome</html>"; text_rejects := false |}.

Definition plain_site : Platform :=
  {| World := Z;
     Date_now := fun w => (w, w + 1);
     Date_valueOf := date_table;
     node_fetch := fun _ _ w => (Some plain_page, w);
     RegExp_other := pattern_table |}.

(** A site that sets its session cookie without an expiry. *)
Definition session_page : Response :=
  {| set_cookie := Some ["sessionid=s3cr3t; HttpOnly; Path=/"%string];
     text := "<html>welcome</html>";
     text_rejects := false |}.

Definition session_site : Platform :=
  {| World := Z;
     Date_now := fun w => (w, w + 1);
     Date_valueOf := date_table;
     node_fetch := fun _ _ w => (Some session_page, w);
     RegExp_other := pattern_table |}.

(** A site that cannot be reached: every exchange is rejected. *)
Definition offline : Platform :=
  {| World := Z;
     Date_now := fun w => (w, w + 1);
     Date_valueOf := date_table;
     node_fetch := fun _ _ w => (None, w);
     RegExp_other := pattern_table |}.

(** A site whose login page writes its attributes in single quotes. *)
Definition quoted_page : Response :=
  {| set_cookie := None;
     text := "<form><input name=" +:+ sq +:+ "csrfmiddlewaretoken" +:+ sq
             +:+ " value=" +:+ sq +:+ "xyz789" +:+ sq +:+ "></form>";
     text_rejects := false |}.

Definition quoted_site : Platform :=
  {| World := Z;
     Date_now := fun w => (w, w + 1);
     Date_valueOf := date_table;
     node_fetch := fun _ _ w => (Some quoted_page, w);
     RegExp_other := pattern_table |}.

(** A site whose login page has two forms, each with its own token. *)
Definition two_forms_page : Response :=
  {| set_cookie := None;
     text := "<input name=" +:+ dq +:+ "csrfmiddlewaretoken" +:+ dq
             +:+ " value=" +:+ dq +:+ "zzz" +:+ dq +:+ ">"
             +:+ "<input name=" +:+ dq +:+ "csrfmiddlewaretoken" +:+ dq
             +:+ " value=" +:+ dq +:+ "abc123" +:+ dq +:+ ">";
     text_rejects := false |}.

Definition two_forms_site : Platform :=
  {| World := Z;
     Date_now := fun w => (w, w + 1);
     Date_valueOf := date_table;
     node_fetch := fun _ _ w => (Some two_forms_page, w);
     RegExp_other := pattern_table |}.

(** A site that answers, but whose bodies cannot be read to the end. *)
Definition broken_page : Response :=
  {| set_cookie := None; text := EmptyString; text_rejects := true |}.

Definition broken_site : Platform :=
  {| World := Z;
     Date_now := fun w => (w, w + 1);
     Date_valueOf := date_table;
     node_fetch := fun _ _ w => (Some broken_page, w);
     RegExp_other := pattern_table |}.

Definition options : IWebLoginOptions :=
  {| baseURL := "https://myapp.com";
     username := "myusername";
     password := "mysecurepassword";
     loginPath := "/login/";
     sessionidCookieName := "sessionid";
     middlewaretokenName := Some "csrfmiddlewaretoken"%string |}.

(** The same construction with [middlewaretokenName] left out. *)
Definition options_no_token : IWebLoginOptions :=
  {| baseURL := "https://myapp.com";
     username := "myusername";
     password := "mysecurepassword";
     loginPath := "/login/";
     sessionidCookieName := "sessionid";
     middlewaretokenName := None |}.

(** A construction whose token field name is not a valid pattern. *)
Definition options_bad_pattern : IWebLoginOptions :=
  {| baseURL := "https://myapp.com";
     username := "myusername";
     password := "mysecurepassword";
     loginPath := "/login/";
     sessionidCookieName := "sessionid";
     middlewaretokenName := Some "csrf(token"%string |}.

(** A fresh instance at clock reading [w]. *)
Definition fresh (w : Z) : @Manager site :=
  @mkManager site [] w [].

(** An instance holding a session cookie that expires at 1000. *)
Definition stale (w : Z) : @Manager site :=
  @mkManager site
    [ {| name := "sessionid"; value := "s3cr3t"; expires := Num 1000 |} ] w [].

End Demo.

(** * Facts about the string built-ins *)

Section StringFacts.

Lemma append_empty_r (s : string) : s +:+ EmptyString = s.
Proof. induction s as [|c s IH]; simpl; [reflexivity | now rewrite IH]. Qed.

Lemma append_assoc (a b c : string) : (a +:+ b) +:+ c = a +:+ b +:+ c.
Proof. induction a as [|x a IH]; simpl; [reflexivity | now rewrite IH]. Qed.

Lemma length_append (a b : string) :
  String.length (a +:+ b) = (String.length a + String.length b)%nat.
Proof. induction a as [|x a IH]; simpl; [reflexivity | now rewrite IH]. Qed.

Lemma prefix_length (p s : string) :
  prefix p s = true -> (String.length p <= String.length s)%nat.
Proof.
  revert s; induction p as [|a p IH]; intros [|b s]; simpl; try lia; try discriminate.
  destruct (ascii_dec a b); [|discriminate].
  intros H; apply IH in H; lia.
Qed.

Lemma prefix_empty (s : string) : prefix EmptyString s = true.
Proof. now destruct s. Qed.

Lemma prefix_append (p s : string) : prefix p (p +:+ s) = true.
Proof.
  induction p as [|a p IH]; simpl; [apply prefix_empty|].
  destruct (ascii_dec a a); [exact IH | congruence].
Qed.

Lemma drop_append (p s : string) : JS.drop (String.length p) (p +:+ s) = s.
Proof. induction p as [|a p IH]; simpl; [now destruct s | exact IH]. Qed.

(** Once a separator occurrence is being passed, [split_go] is [split_go]
    on the text behind it. *)
Lemma split_go_skip (sep : string) (s : string) :
  forall (k : nat) (cur : string),
    (k <= String.length s)%nat ->
    JS.split_go sep k cur s = JS.split_go sep 0 cur (JS.drop k s).
Proof.
  induction s as [|c s IH]; intros k cur Hk.
  - destruct k; [reflexivity | simpl in Hk; lia].
  - destruct k as [|k]; [reflexivity|].
    simpl in Hk. simpl JS.drop. cbn [JS.split_go]. apply IH. lia.
Qed.

(** The first piece of a split is the text before the first separator, and
    the other pieces are the split of the text after it. *)
Lemma split_go_unfold (a : ascii) (sep' : string) (s : string) :
  forall cur : string,
    JS.split_go (String a sep') 0 cur s =
    (cur +:+ Spec.before (String a sep') s) ::
    match Spec.after (String a sep') s with
    | None => []
    | Some r => JS.split_go (String a sep') 0 EmptyString r
    end.
Proof.
  set (sep := String a sep').
  induction s as [|c s IH]; intros cur.
  - simpl. now rewrite append_empty_r.
  - cbn [JS.split_go Spec.before Spec.after].
    destruct (prefix sep (String c s)) eqn:Hp.
    + rewrite append_empty_r. f_equal.
      assert (Hl : (String.length sep' <= String.length s)%nat).
      { apply prefix_length in Hp. simpl in Hp. lia. }
      unfold sep at 2 4. cbn [String.length JS.drop].
      replace (S (String.length sep') - 1)%nat with (String.length sep') by lia.
      now apply split_go_skip.
    + rewrite IH. rewrite append_assoc. reflexivity.
Qed.

Lemma split_unfold (a : ascii) (sep' : string) (s : string) :
  JS.split (String a sep') s =
  Spec.before (String a sep') s ::
  match Spec.after (String a sep') s with
  | None => []
  | Some r => JS.split (String a sep') r
  end.
Proof. unfold JS.split. now rewrite split_go_unfold. Qed.

Lemma split_hd (a : ascii) (sep' : string) (s : string) :
  hd EmptyString (JS.split (String a sep') s) = Spec.before (String a sep') s.
Proof. now rewrite split_unfold. Qed.

Lemma split_at_1 (a : ascii) (sep' : string) (s : string) :
  JS.at_index (JS.split (String a sep') s) 1 =
  option_map (Spec.before (String a sep')) (Spec.after (String a sep') s).
Proof.
  rewrite split_unfold. unfold JS.at_index. simpl.
  destruct (Spec.after (String a sep') s) as [r|]; [|reflexivity].
  now rewrite split_unfold.
Qed.

(** There is text after a separator exactly when the separator occurs. *)
Lemma after_none_iff (sep s : string) :
  Spec.after sep s = None <-> JS.includes s sep = false.
Proof.
  induction s as [|c s IH]; cbn [Spec.after JS.includes].
  - destruct (prefix sep EmptyString); simpl; split; congruence.
  - destruct (prefix sep (String c s)); simpl; [split; congruence | exact IH].
Qed.

Lemma prefix_char (a c : ascii) (s : string) :
  prefix (String a EmptyString) (String c s) = Ascii.eqb a c.
Proof.
  simpl. destruct (ascii_dec a c) as [->|Hn].
  - now rewrite Ascii.eqb_refl, prefix_empty.
  - symmetry. now apply Ascii.eqb_neq.
Qed.

Lemma includes_cons_false (c : ascii) (s sub : string) :
  JS.includes (String c s) sub = false ->
  prefix sub (String c s) = false /\ JS.includes s sub = false.
Proof. cbn [JS.includes]. intros H. now apply orb_false_iff in H. Qed.

(** A separator free of [;] that starts a text also starts what that text
    has before its first [;]. *)
Lemma prefix_before_semicolon (sep : string) : forall r : string,
  JS.includes sep ";" = false ->
  prefix sep r = true -> prefix sep (Spec.before ";" r) = true.
Proof.
  induction sep as [|a sep IH]; intros r Hs Hp; [apply prefix_empty|].
  destruct r as [|c r]; [discriminate|].
  simpl in Hp. destruct (ascii_dec a c) as [<-|]; [|discriminate].
  apply includes_cons_false in Hs as [Ha Hs]. rewrite prefix_char in Ha.
  cbn [Spec.before]. rewrite prefix_char, Ha.
  simpl. destruct (ascii_dec a a); [now apply IH | congruence].
Qed.

(** Cutting a text at a separator first does not change what it has before
    its first [;], as long as the separator does not occur there.  This is
    the case of a value with no [=] in it, and of a date with no [expires=]
    in it. *)
Lemma before_semicolon_before (a : ascii) (sep' : string) (r : string) :
  JS.includes (String a sep') ";" = false ->
  JS.includes (Spec.before ";" r) (String a sep') = false ->
  Spec.before ";" (Spec.before (String a sep') r) = Spec.before ";" r.
Proof.
  set (sep := String a sep'). intros Hs.
  induction r as [|c r IH]; [reflexivity|].
  intros H. cbn [Spec.before] in *.
  destruct (prefix sep (String c r)) eqn:Hp.
  - exfalso.
    assert (Hq := prefix_before_semicolon sep (String c r) Hs Hp).
    cbn [Spec.before] in Hq.
    destruct (prefix ";" (String c r)).
    + discriminate Hq.
    + apply includes_cons_false in H as [H _]. congruence.
  - cbn [Spec.before].
    destruct (prefix ";" (String c r)) eqn:Hc.
    + rewrite prefix_char in Hc. now rewrite prefix_char, Hc.
    + rewrite prefix_char in Hc. rewrite prefix_char, Hc.
      apply includes_cons_false in H as [_ H]. now rewrite IH.
Qed.

Lemma prefix_split (p : string) : forall s : string,
  prefix p s = true -> s = p +:+ JS.drop (String.length p) s.
Proof.
  induction p as [|a p IH]; intros s H; [now destruct s|].
  destruct s as [|b s]; [discriminate|]. simpl in *.
  destruct (ascii_dec a b) as [->|]; [|discriminate].
  f_equal. now apply IH.
Qed.

Lemma includes_prefix (s sub : string) : prefix sub s = true -> JS.includes s sub = true.
Proof. intros H. destruct s; cbn [JS.includes]; now rewrite H. Qed.

Lemma includes_append_l (a s sub : string) :
  JS.includes s sub = true -> JS.includes (a +:+ s) sub = true.
Proof.
  intros H. induction a as [|x a IH]; [exact H|].
  simpl. rewrite IH. apply orb_true_r.
Qed.

(** A text that has [a] followed by [b] in it has [b] in it. *)
Lemma includes_tail (a b : string) : forall s : string,
  JS.includes s (a +:+ b) = true -> JS.includes s b = true.
Proof.
  assert (Hp : forall s, prefix (a +:+ b) s = true -> JS.includes s b = true).
  { intros s H. rewrite (prefix_split _ _ H), append_assoc.
    apply includes_append_l, includes_prefix, prefix_append. }
  induction s as [|c s IH]; intros H; cbn [JS.includes] in H.
  - apply Hp. now rewrite orb_false_r in H.
  - apply orb_true_iff in H as [H|H]; [now apply Hp|].
    apply IH in H. cbn [JS.includes]. rewrite H. apply orb_true_r.
Qed.

End StringFacts.

(** * Facts about the cookie array *)

Section StoreFacts.

Lemma find_cookie_none (nm : string) (cookies : list ICookie) :
  find_cookie nm cookies = None <-> ~ In nm (map name cookies).
Proof.
  unfold find_cookie. induction cookies as [|c cs IH]; simpl.
  - tauto.
  - destruct (String.eqb_spec (name c) nm) as [E|E].
    + split; [discriminate | intros H; exfalso; apply H; now left].
    + rewrite IH. tauto.
Qed.

Lemma assign_first_names nm v e cookies :
  map name (assign_first nm v e cookies) = map name cookies.
Proof.
  induction cookies as [|c cs IH]; simpl; [reflexivity|].
  destruct (String.eqb (name c) nm); simpl; [reflexivity | now rewrite IH].
Qed.

Lemma assign_first_length nm v e cookies :
  length (assign_first nm v e cookies) = length cookies.
Proof.
  rewrite <- (length_map name), assign_first_names. apply length_map.
Qed.

Lemma assign_first_twice nm v e v' e' cookies :
  assign_first nm v e (assign_first nm v' e' cookies) = assign_first nm v e cookies.
Proof.
  induction cookies as [|c cs IH]; simpl; [reflexivity|].
  destruct (String.eqb (name c) nm) eqn:E; simpl; rewrite E; [reflexivity|].
  now rewrite IH.
Qed.

Lemma assign_first_comm n1 v1 e1 n2 v2 e2 cookies :
  n1 <> n2 ->
  assign_first n1 v1 e1 (assign_first n2 v2 e2 cookies) =
  assign_first n2 v2 e2 (assign_first n1 v1 e1 cookies).
Proof.
  intros Hn. induction cookies as [|c cs IH]; simpl; [reflexivity|].
  destruct (String.eqb_spec (name c) n1) as [E1|E1];
    destruct (String.eqb_spec (name c) n2) as [E2|E2]; simpl.
  - congruence.
  - rewrite (proj2 (String.eqb_eq _ _) E1), (proj2 (String.eqb_neq _ _) E2).
    reflexivity.
  - rewrite (proj2 (String.eqb_neq _ _) E1), (proj2 (String.eqb_eq _ _) E2).
    reflexivity.
  - rewrite (proj2 (String.eqb_neq _ _) E1), (proj2 (String.eqb_neq _ _) E2).
    now rewrite IH.
Qed.

Lemma assign_first_app_known nm v e cookies more :
  In nm (map name cookies) ->
  assign_first nm v e (cookies ++ more) = assign_first nm v e cookies ++ more.
Proof.
  induction cookies as [|c cs IH]; simpl; [tauto|].
  intros [E|H].
  - now rewrite (proj2 (String.eqb_eq _ _) E).
  - destruct (String.eqb (name c) nm); [reflexivity | now rewrite IH].
Qed.

Lemma assign_first_app_new nm v e cookies more :
  ~ In nm (map name cookies) ->
  assign_first nm v e (cookies ++ more) = cookies ++ assign_first nm v e more.
Proof.
  induction cookies as [|c cs IH]; simpl; [reflexivity|].
  intros H. destruct (String.eqb_spec (name c) nm) as [E|E]; [tauto|].
  rewrite IH; tauto.
Qed.

Lemma assign_first_In nm v e cookies :
  In nm (map name cookies) ->
  In {| name := nm; value := v; expires := e |} (assign_first nm v e cookies).
Proof.
  induction cookies as [|c cs IH]; simpl; [tauto|].
  intros H. destruct (String.eqb_spec (name c) nm) as [E|E].
  - left. now rewrite E.
  - right. apply IH. destruct H; [contradiction | assumption].
Qed.

Lemma assign_first_others nm v e cookies c :
  In c cookies -> name c <> nm -> In c (assign_first nm v e cookies).
Proof.
  induction cookies as [|c0 cs IH]; simpl; [tauto|].
  intros [E|H] Hn.
  - subst c0. rewrite (proj2 (String.eqb_neq _ _) Hn). now left.
  - destruct (String.eqb (name c0) nm); right; [assumption | now apply IH].
Qed.

(** [store_cookie] by cases on whether the name is already stored. *)
Lemma store_cookie_known c cookies :
  In (name c) (map name cookies) ->
  store_cookie c cookies = assign_first (name c) (value c) (expires c) cookies.
Proof.
  intros H. unfold store_cookie.
  destruct (find_cookie (name c) cookies) eqn:F; [reflexivity|].
  apply find_cookie_none in F. contradiction.
Qed.

Lemma store_cookie_new c cookies :
  ~ In (name c) (map name cookies) -> store_cookie c cookies = cookies ++ [c].
Proof.
  intros H. unfold store_cookie.
  apply find_cookie_none in H. now rewrite H.
Qed.

Lemma store_cookie_names c cookies :
  map name (store_cookie c cookies) =
  if in_dec string_dec (name c) (map name cookies)
  then map name cookies else map name cookies ++ [name c].
Proof.
  destruct (in_dec string_dec (name c) (map name cookies)) as [H|H].
  - rewrite store_cookie_known by assumption. apply assign_first_names.
  - rewrite store_cookie_new by assumption. now rewrite map_app.
Qed.

Lemma store_cookie_has_name c cookies : In (name c) (map name (store_cookie c cookies)).
Proof.
  rewrite store_cookie_names.
  destruct (in_dec string_dec (name c) (map name cookies)); [assumption|].
  apply in_or_app. right. now left.
Qed.

Lemma store_cookie_keeps_names c nm cookies :
  In nm (map name cookies) -> In nm (map name (store_cookie c cookies)).
Proof.
  intros H. rewrite store_cookie_names.
  destruct (in_dec string_dec (name c) (map name cookies)); [assumption|].
  apply in_or_app. now left.
Qed.

Lemma store_cookie_In c cookies : In c (store_cookie c cookies).
Proof.
  destruct (in_dec string_dec (name c) (map name cookies)) as [H|H].
  - rewrite store_cookie_known by assumption.
    destruct c as [n v e]. now apply assign_first_In.
  - rewrite store_cookie_new by assumption. apply in_or_app. right. now left.
Qed.

Lemma store_cookie_NoDup c cookies :
  NoDup (map name cookies) -> NoDup (map name (store_cookie c cookies)).
Proof.
  intros H. rewrite store_cookie_names.
  destruct (in_dec string_dec (name c) (map name cookies)) as [Hi|Hi]; [assumption|].
  apply NoDup_app; [assumption | constructor; [simpl; tauto | constructor] |].
  intros x Hx [E|[]]. subst x. contradiction.
Qed.

(** Storing twice under one name is storing the later cookie. *)
Lemma store_cookie_same_name c c' cookies :
  name c = name c' ->
  store_cookie c (store_cookie c' cookies) = store_cookie c cookies.
Proof.
  intros E.
  rewrite (store_cookie_known c (store_cookie c' cookies))
    by (rewrite E; apply store_cookie_has_name).
  destruct (in_dec string_dec (name c') (map name cookies)) as [H|H].
  - rewrite (store_cookie_known c') by assumption.
    rewrite (store_cookie_known c) by (now rewrite E).
    rewrite E. apply assign_first_twice.
  - rewrite (store_cookie_new c') by assumption.
    rewrite (store_cookie_new c) by (now rewrite E).
    rewrite assign_first_app_new by (now rewrite E).
    simpl. rewrite E, String.eqb_refl. rewrite <- E. now destruct c.
Qed.

(** Storing under a known name commutes with storing under another name. *)
Lemma store_cookie_comm c d cookies :
  In (name c) (map name cookies) -> name c <> name d ->
  store_cookie d (store_cookie c cookies) = store_cookie c (store_cookie d cookies).
Proof.
  intros Hc Hn.
  rewrite (store_cookie_known c cookies) by assumption.
  rewrite (store_cookie_known c (store_cookie d cookies))
    by (now apply store_cookie_keeps_names).
  destruct (in_dec string_dec (name d) (map name cookies)) as [H|H].
  - rewrite (store_cookie_known d cookies) by assumption.
    rewrite store_cookie_known by (now rewrite assign_first_names).
    apply assign_first_comm. congruence.
  - rewrite (store_cookie_new d cookies) by assumption.
    rewrite store_cookie_new by (now rewrite assign_first_names).
    now rewrite assign_first_app_known.
Qed.

Lemma store_all_keeps_names cs nm : forall cookies,
  In nm (map name cookies) -> In nm (map name (store_all cs cookies)).
Proof.
  induction cs as [|d cs IH]; intros cookies H; simpl; [assumption|].
  apply IH. now apply store_cookie_keeps_names.
Qed.

Lemma store_all_NoDup cs : forall cookies,
  NoDup (map name cookies) -> NoDup (map name (store_all cs cookies)).
Proof.
  induction cs as [|d cs IH]; intros cookies H; simpl; [assumption|].
  apply IH. now apply store_cookie_NoDup.
Qed.

(** A cookie stored under a known name is forgotten when the run stores that
    name again. *)
Lemma store_all_absorbs cs c : forall cookies,
  In (name c) (map name cookies) -> In (name c) (map name cs) ->
  store_all cs (store_cookie c cookies) = store_all cs cookies.
Proof.
  induction cs as [|d cs IH]; intros cookies Hk Hin; simpl in *; [tauto|].
  destruct (string_dec (name d) (name c)) as [E|E].
  - now rewrite store_cookie_same_name.
  - destruct Hin as [Hin|Hin]; [contradiction|].
    rewrite store_cookie_comm by congruence.
    apply IH; [now apply store_cookie_keeps_names | assumption].
Qed.

Lemma store_all_comm cs d : forall cookies,
  In (name d) (map name cookies) -> ~ In (name d) (map name cs) ->
  store_cookie d (store_all cs cookies) = store_all cs (store_cookie d cookies).
Proof.
  induction cs as [|c cs IH]; intros cookies Hk Hin; simpl in *; [reflexivity|].
  rewrite IH by (try apply store_cookie_keeps_names; tauto).
  rewrite (store_cookie_comm d c) by (try assumption; intros E; apply Hin; now left).
  reflexivity.
Qed.

Lemma store_all_idempotent cs : forall cookies,
  store_all cs (store_all cs cookies) = store_all cs cookies.
Proof.
  induction cs as [|d cs IH]; intros cookies; simpl; [reflexivity|].
  set (K := store_cookie d cookies).
  assert (HK : In (name d) (map name K)) by apply store_cookie_has_name.
  destruct (in_dec string_dec (name d) (map name cs)) as [Hin|Hin].
  - rewrite store_all_absorbs; [apply IH | now apply store_all_keeps_names | assumption].
  - rewrite store_all_comm by assumption.
    unfold K at 1. rewrite store_cookie_same_name by reflexivity.
    apply IH.
Qed.

End StoreFacts.

(** * [getCookies] and [updateCookies] *)

Section JarFacts.
Context `{P : Platform}.

(** [parse_cookie] in terms of "the text before" and "the text after". *)
Lemma parse_cookie_unfold (h : string) :
  parse_cookie h =
  match Spec.after "=" h, Spec.after "expires=" h with
  | Some r, Some e =>
      Some {| name := JS.trim (Spec.before "=" h);
              value := JS.trim (Spec.before ";" (Spec.before "=" r));
              expires :=
                Date_valueOf (JS.trim (Spec.before ";" (Spec.before "expires=" e))) |}
  | _, _ => None
  end.
Proof.
  unfold parse_cookie.
  rewrite !split_hd, !split_at_1.
  destruct (Spec.after "=" h) as [r|]; simpl; [|reflexivity].
  destruct (Spec.after "expires=" h) as [e|]; simpl; [|reflexivity].
  now rewrite !split_hd.
Qed.

(** A header can be taken apart exactly when it has [expires=] in it. *)
Lemma parse_cookie_some_iff (h : string) :
  parse_cookie h <> None <-> JS.includes h "expires=" = true.
Proof.
  rewrite parse_cookie_unfold.
  destruct (Spec.after "expires=" h) as [e|] eqn:He.
  - assert (Hi : JS.includes h "expires=" = true).
    { destruct (JS.includes h "expires=") eqn:Hi; [reflexivity|].
      apply after_none_iff in Hi. congruence. }
    destruct (Spec.after "=" h) as [r|] eqn:Hr.
    + split; [intros _; exact Hi | discriminate].
    + apply after_none_iff in Hr.
      apply (includes_tail "expires" "=") in Hi. congruence.
  - apply after_none_iff in He. rewrite He.
    destruct (Spec.after "=" h); split; congruence.
Qed.

Lemma parse_cookie_needs_expires (h : string) :
  JS.includes h "expires=" = false -> parse_cookie h = None.
Proof.
  intros H. rewrite parse_cookie_unfold.
  apply after_none_iff in H. rewrite H.
  now destruct (Spec.after "=" h).
Qed.

(** The loop stores the cookies of the headers it gets through. *)
Lemma forEach_cookie_stores (raw : list string) : forall cookies,
  snd (forEach_cookie raw cookies) = store_all (parsed_prefix raw) cookies.
Proof.
  induction raw as [|h raw IH]; intros cookies; simpl; [reflexivity|].
  destruct (parse_cookie h) as [c|]; simpl; [apply IH | reflexivity].
Qed.

(** Whether the loop throws depends on the headers alone. *)
Lemma forEach_cookie_completion (raw : list string) : forall cookies cookies',
  fst (forEach_cookie raw cookies) = fst (forEach_cookie raw cookies').
Proof.
  induction raw as [|h raw IH]; intros cookies cookies'; simpl; [reflexivity|].
  destruct (parse_cookie h) as [c|]; simpl; [apply IH | reflexivity].
Qed.

Lemma forEach_cookie_well_formed (raw : list string) : forall cookies,
  Forall (fun cookie => parse_cookie cookie <> None) raw ->
  fst (forEach_cookie raw cookies) = Normal tt.
Proof.
  induction raw as [|h raw IH]; intros cookies H; simpl; [reflexivity|].
  inversion H as [|? ? Hh Hr]; subst.
  destruct (parse_cookie h) as [c|]; [now apply IH | congruence].
Qed.

Lemma forEach_cookie_app (pre post : list string) : forall cookies,
  fst (forEach_cookie pre cookies) = Normal tt ->
  forEach_cookie (pre ++ post) cookies =
  forEach_cookie post (snd (forEach_cookie pre cookies)).
Proof.
  induction pre as [|h pre IH]; intros cookies H; simpl in *; [reflexivity|].
  destruct (parse_cookie h) as [c|]; [now apply IH | discriminate].
Qed.

Lemma getCookies_names_NoDup (d : Z) (cookies : list ICookie) :
  NoDup (map name cookies) -> NoDup (map name (snd (getCookies d cookies))).
Proof.
  unfold getCookies; simpl.
  induction cookies as [|c cs IH]; simpl; intros H; [constructor|].
  inversion H as [|? ? Hc Hcs]; subst.
  assert (Hn : name (mark_expired d c) = name c).
  { unfold mark_expired. now destruct (ge_number d (expires c)). }
  assert (Hsub : forall x, In x (map name (filter has_value (map (mark_expired d) cs))) ->
                           In x (map name cs)).
  { intros x Hx. apply in_map_iff in Hx as [y [<- Hy]].
    apply filter_In in Hy as [Hy _]. apply in_map_iff in Hy as [z [<- Hz]].
    apply in_map_iff. exists z. split; [|assumption].
    unfold mark_expired. now destruct (ge_number d (expires z)). }
  destruct (has_value (mark_expired d c)); simpl; [|now apply IH].
  constructor; [|now apply IH].
  rewrite Hn. intros Hin. apply Hc. now apply Hsub.
Qed.

(** After a read, what is left is neither expired nor empty. *)
Lemma getCookies_prunes (d : Z) (cookies : list ICookie) (c : ICookie) :
  In c (snd (getCookies d cookies)) ->
  ge_number d (expires c) = false /\ value c <> EmptyString.
Proof.
  unfold getCookies; simpl. intros H.
  apply filter_In in H as [H Hv]. apply in_map_iff in H as [c0 [E H]].
  unfold has_value in Hv. apply negb_true_iff in Hv. apply String.eqb_neq in Hv.
  split; [|assumption].
  unfold mark_expired in E.
  destruct (ge_number d (expires c0)) eqn:G; subst c; simpl in *; congruence.
Qed.

(** While no stored cookie is expired, the header text is the one the
    description gives. *)
Lemma getCookies_header_fresh (d : Z) (cookies : list ICookie) :
  (forall c, In c cookies -> ge_number d (expires c) = false) ->
  fst (getCookies d cookies) = Spec.header_value d cookies.
Proof.
  intros H. unfold getCookies, Spec.header_value, Spec.active. simpl. f_equal.
  induction cookies as [|c cs IH]; simpl; [reflexivity|].
  unfold mark_expired at 1. rewrite (H c) by now left. simpl.
  rewrite IH; [reflexivity|]. intros c' Hc'. apply H. now right.
Qed.

End JarFacts.

(** * The cookie jar: reading, parsing and merging *)

Section JarClaims.
Context `{P : Platform}.

(** C4 (as amended).  For a raw [set-cookie] header in which the text
    between the first [=] and the first following [;] has no further [=],
    and the text between [expires=] and the next [;] has no further
    [expires=], the cookie that a merge stores has as name the text before
    the first [=], as value that text between [=] and [;], and as expiry the
    date parsed from that text after [expires=], each with the white space
    around it trimmed. *)
Theorem parse_cookie_fields (h v e : string) (cookies : list ICookie) :
  Spec.cookie_value h = Some v ->
  Spec.cookie_expiry_text h = Some e ->
  JS.includes v "=" = false ->
  JS.includes e "expires=" = false ->
  let c := {| name := JS.trim (Spec.cookie_name h);
              value := JS.trim v;
              expires := Date_valueOf (JS.trim e) |} in
  parse_cookie h = Some c /\
  updateCookies (Some [h]) cookies = (Normal tt, store_cookie c cookies) /\
  In c (snd (updateCookies (Some [h]) cookies)).
Proof.
  intros Hv He Nv Ne c.
  unfold Spec.cookie_value, Spec.cookie_expiry_text in Hv, He.
  unfold Spec.cookie_name in c.
  assert (Hp : parse_cookie h = Some c).
  { rewrite parse_cookie_unfold.
    destruct (Spec.after "=" h) as [r|]; [|discriminate].
    destruct (Spec.after "expires=" h) as [x|]; [|discriminate].
    simpl in Hv, He. injection Hv as <-. injection He as <-.
    rewrite (before_semicolon_before "=" EmptyString r) by (reflexivity || assumption).
    rewrite (before_semicolon_before "e" "xpires=" x) by (reflexivity || assumption).
    reflexivity. }
  split; [exact Hp|].
  simpl. rewrite Hp. simpl.
  split; [reflexivity | apply store_cookie_In].
Qed.

(** C5.  When one of the [set-cookie] values has no [expires=] in it, the
    merge throws: it stops at the first header it cannot take apart, with
    the cookies of the headers before that one stored and nothing of the
    headers after it. *)
Theorem updateCookies_missing_expires
    (raw : list string) (cookies : list ICookie) (h : string) :
  In h raw ->
  JS.includes h "expires=" = false ->
  exists pre bad post,
    raw = pre ++ bad :: post /\
    parse_cookie bad = None /\
    fst (updateCookies (Some pre) cookies) = Normal tt /\
    updateCookies (Some raw) cookies =
      (Throw TypeError, snd (updateCookies (Some pre) cookies)).
Proof.
  intros Hin Hh. apply parse_cookie_needs_expires in Hh.
  revert cookies. induction raw as [|x raw IH]; intros cookies; [destruct Hin|].
  destruct (parse_cookie x) as [c|] eqn:Hx.
  - destruct Hin as [->|Hin]; [congruence|].
    destruct (IH Hin (store_cookie c cookies)) as (pre & bad & post & E & Hb & Hn & Ht).
    exists (x :: pre), bad, post. subst raw. simpl in *. rewrite Hx.
    repeat split; assumption.
  - exists [], x, raw. simpl. rewrite Hx. repeat split; assumption.
Qed.

(** Merging the same headers again changes nothing, whether or not the
    loop gets through all of them. *)
Lemma updateCookies_twice (raw : option (list string)) (cookies : list ICookie) :
  updateCookies raw (snd (updateCookies raw cookies)) =
  (fst (updateCookies raw cookies), snd (updateCookies raw cookies)).
Proof.
  destruct raw as [l|]; simpl; [|reflexivity].
  rewrite (surjective_pairing (forEach_cookie l (snd (forEach_cookie l cookies)))).
  f_equal.
  - apply forEach_cookie_completion.
  - rewrite !forEach_cookie_stores. apply store_all_idempotent.
Qed.

(** C6.  Merging a sequence of well-formed [set-cookie] headers twice
    leaves the cookie array exactly as merging it once does; so the two
    have the same active cookies, and the same header text, at every
    reading of the clock. *)
Theorem updateCookies_idempotent (raw : list string) (cookies : list ICookie) :
  Forall (fun cookie => parse_cookie cookie <> None) raw ->
  let once := snd (updateCookies (Some raw) cookies) in
  let twice := snd (updateCookies (Some raw) once) in
  updateCookies (Some raw) cookies = (Normal tt, once) /\
  updateCookies (Some raw) once = (Normal tt, twice) /\
  twice = once /\
  forall d, Spec.active d twice = Spec.active d once /\
            getCookies d twice = getCookies d once.
Proof.
  intros Hwf once twice.
  assert (H1 : updateCookies (Some raw) cookies = (Normal tt, once)).
  { unfold once. simpl.
    rewrite (surjective_pairing (forEach_cookie raw cookies)) at 1.
    now rewrite forEach_cookie_well_formed. }
  assert (H2 : updateCookies (Some raw) once = (Normal tt, once)).
  { unfold once. rewrite updateCookies_twice. now rewrite H1. }
  assert (E : twice = once) by (unfold twice; now rewrite H2).
  repeat split; try assumption; now rewrite E.
Qed.

Lemma run_op_NoDup (op : jar_op) (cookies : list ICookie) :
  NoDup (map name cookies) -> NoDup (map name (run_op cookies op)).
Proof.
  intros H. destruct op as [[l|]|d]; simpl.
  - rewrite forEach_cookie_stores. now apply store_all_NoDup.
  - assumption.
  - now apply getCookies_names_NoDup.
Qed.

Lemma run_NoDup (ops : list jar_op) : forall cookies,
  NoDup (map name cookies) -> NoDup (map name (run ops cookies)).
Proof.
  unfold run. induction ops as [|op ops IH]; intros cookies H; simpl; [assumption|].
  apply IH. now apply run_op_NoDup.
Qed.

(** C9.  Starting from the empty array, after any run of merges and reads
    no two stored cookies have the same name; and merging a header whose
    name is already stored leaves the list of names as it was, puts the
    new value and expiry on the entry of that name, and keeps every other
    entry. *)
Theorem cookie_names_unique (ops : list jar_op) :
  NoDup (map name (run ops [])) /\
  forall (h : string) (c : ICookie),
    parse_cookie h = Some c ->
    In (name c) (map name (run ops [])) ->
    let cookies := run ops [] in
    let cookies' := run (ops ++ [Merge (Some [h])]) [] in
    map name cookies' = map name cookies /\
    NoDup (map name cookies') /\
    In c cookies' /\
    forall c', In c' cookies -> name c' <> name c -> In c' cookies'.
Proof.
  assert (Hnd : NoDup (map name (run ops []))) by (apply run_NoDup; constructor).
  split; [exact Hnd|].
  intros h c Hp Hin cookies cookies'.
  assert (E : cookies' = store_cookie c cookies).
  { unfold cookies', cookies, run. rewrite fold_left_app. simpl. now rewrite Hp. }
  rewrite E. rewrite store_cookie_known by assumption.
  repeat split.
  - apply assign_first_names.
  - now rewrite assign_first_names.
  - destruct c as [n v x]. now apply assign_first_In.
  - intros c' H Hn. now apply assign_first_others.
Qed.

End JarClaims.

(** C2 (the code departs from it).  Read at time 100, an array holding a
    cookie [a] that expires at 100 and a cookie [b] that expires at 101 gives
    the header text [a=; b=2]: the expired cookie is listed, with its value
    cleared, where the non-expired entries alone would read [b=2].  The same
    read does drop it from the array. *)
Theorem getCookies_lists_expired_cookie :
  let a := {| name := "a"; value := "1"; expires := Num 100 |} in
  let b := {| name := "b"; value := "2"; expires := Num 101 |} in
  getCookies 100 [a; b] = ("a=; b=2"%string, [b]) /\
  Spec.header_value 100 [a; b] = "b=2"%string /\
  fst (getCookies 100 [a; b]) <> Spec.header_value 100 [a; b].
Proof. repeat split. discriminate. Qed.

(** * The session: [fetch] and [login] *)

Section SessionFacts.
Context `{P : Platform}.

Lemma bind_normal {A B} (c : M A) (k : A -> M B) (m m' : Manager) (a : A) :
  c m = (Normal a, m') -> bind c k m = k a m'.
Proof. unfold bind. now intros ->. Qed.

Lemma bind_throw {A B} (c : M A) (k : A -> M B) (m m' : Manager) (e : error) :
  c m = (Throw e, m') -> bind c k m = (Throw e, m').
Proof. unfold bind. now intros ->. Qed.

(** [fetch(path, options, true)] hands exactly one request to the
    transport, whatever becomes of it. *)
Lemma fetch_skipLogin_sent cfg path options (m : Manager) :
  sent (snd (fetch_skipLogin cfg path options m)) =
  sent m ++ [(baseURL cfg +:+ path, with_cookie options (cookie_header m))].
Proof.
  unfold fetch_skipLogin, bind, getCookiesM, transport, updateCookiesM, ret, cookie_header.
  destruct (Date_now (world m)) as [d w]. cbn [fst].
  destruct (getCookies d (this_cookies m)) as [a cs]. simpl.
  destruct (node_fetch _ _ w) as [[res|] w']; simpl; [|reflexivity].
  destruct (updateCookies (set_cookie res) cs) as [[[]|e] cs']; reflexivity.
Qed.

(** Against a reliable site it returns the site's response. *)
Lemma fetch_skipLogin_reliable cfg path options (m : Manager) :
  reliable ->
  exists res m' w',
    fetch_skipLogin cfg path options m = (Normal res, m') /\
    node_fetch (baseURL cfg +:+ path) (with_cookie options (cookie_header m))
               (snd (Date_now (world m))) = (Some res, w') /\
    sent m' = sent m ++ [(baseURL cfg +:+ path, with_cookie options (cookie_header m))] /\
    text_rejects res = false.
Proof.
  intros R.
  unfold fetch_skipLogin, bind, getCookiesM, transport, updateCookiesM, ret, cookie_header.
  destruct (Date_now (world m)) as [d w]. cbn [fst snd].
  destruct (getCookies d (this_cookies m)) as [a cs]. simpl.
  destruct (R (baseURL cfg +:+ path) (with_cookie options a) w) as (res & w' & E & Wf & Rd).
  rewrite E. simpl.
  destruct (set_cookie res) as [raw|] eqn:Hr; simpl.
  - rewrite (surjective_pairing (forEach_cookie raw cs)).
    rewrite forEach_cookie_well_formed by (now apply Wf).
    eexists _, _, _. repeat split. exact Rd.
  - eexists _, _, _. repeat split. exact Rd.
Qed.

(** The login decision of [fetch]: it searches the header text for the
    session cookie's name. *)
Lemma fetch_decision cfg path options (m : Manager) :
  fetch cfg path options false m =
  let m0 := snd (getCookiesM m) in
  if JS.includes (cookie_header m) (sessionidCookieName cfg)
  then fetch_skipLogin cfg path options m0
  else bind (login cfg) (fun _ => fetch_skipLogin cfg path options) m0.
Proof.
  unfold fetch, cookie_header. cbv iota.
  unfold bind at 1. unfold bind at 1. unfold getCookiesM.
  destruct (Date_now (world m)) as [d w]. cbn [fst snd].
  destruct (getCookies d (this_cookies m)) as [a cs]. cbn [fst snd].
  destruct (JS.includes a (sessionidCookieName cfg)); reflexivity.
Qed.

(** C10.  When the response has no [set-cookie] header, the update step
    returns at once: the cookie array, and the rest of the instance, are
    what they were. *)
Theorem updateCookies_without_header (res : Response) (m : Manager) :
  set_cookie res = None ->
  updateCookies (set_cookie res) (this_cookies m) = (Normal tt, this_cookies m) /\
  updateCookiesM res m = (Normal tt, m).
Proof.
  intros H. unfold updateCookiesM. rewrite H. simpl. now destruct m.
Qed.

(** C3 (the code departs from it).  With [middlewaretokenName] left out,
    [login] hands the transport one request only, the POST to the login
    path; but its body starts with the field [undefined=] in front of the
    credentials. *)
Theorem login_without_token_name (cfg : IWebLoginOptions) (m : Manager) :
  middlewaretokenName cfg = None ->
  sent (snd (login cfg m)) =
    sent m ++
    [ (baseURL cfg +:+ loginPath cfg,
       {| method := Some "POST"%string;
          redirect := Some "manual"%string;
          headers := [("content-type", "application/x-www-form-urlencoded");
                      ("cookie", cookie_header m)]%string;
          body := Some ("undefined=&username=" +:+ username cfg
                        +:+ "&password=" +:+ password cfg) |}) ].
Proof.
  intros H. unfold login. rewrite H. simpl truthy. cbv iota.
  rewrite (bind_normal _ _ m m (Some EmptyString)) by reflexivity.
  simpl template. unfold bind at 1.
  pose proof (fetch_skipLogin_sent cfg (loginPath cfg)
                (Some (loginOptions cfg EmptyString)) m) as S.
  destruct (fetch_skipLogin cfg (loginPath cfg) (Some (loginOptions cfg EmptyString)) m)
    as [[r|e] m']; simpl in *; rewrite S;
    unfold loginOptions, with_cookie; rewrite H; reflexivity.
Qed.

(** [login] once the page of the login form has arrived. *)
Lemma login_with_page (cfg : IWebLoginOptions) (nm : string) (m m1 : Manager)
    (page : Response) :
  middlewaretokenName cfg = Some nm -> nm <> EmptyString ->
  fetch_skipLogin cfg (loginPath cfg) None m = (Normal page, m1) ->
  login cfg m =
  match new_RegExp nm with
  | None => (Throw SyntaxError, m1)
  | Some exec =>
      if text_rejects page then (Throw FetchError, m1)
      else
        let (r, m2) := fetch_skipLogin cfg (loginPath cfg)
                         (Some (loginOptions cfg (template (exec (text page))))) m1 in
        (match r with Normal _ => Normal tt | Throw e => Throw e end, m2)
  end.
Proof.
  intros H Hn Hg. unfold login. rewrite H.
  destruct nm as [|a nm]; [congruence|]. simpl truthy. cbv iota. simpl template.
  destruct (new_RegExp (String a nm)) as [exec|].
  - destruct (text_rejects page) eqn:Hr.
    + apply bind_throw. rewrite (bind_normal _ _ m m1 page Hg). now rewrite Hr.
    + rewrite (bind_normal _ _ m m1 (exec (text page)))
        by (rewrite (bind_normal _ _ m m1 page Hg); now rewrite Hr).
      unfold bind, ret.
      destruct (fetch_skipLogin cfg (loginPath cfg) _ m1) as [[r|e] m2]; reflexivity.
  - apply bind_throw. now rewrite (bind_normal _ _ m m1 page Hg).
Qed.

(** With a field name free of pattern syntax characters and a page that can
    be read, [login] goes on to the POST with the token found in the page. *)
Lemma login_after_page (cfg : IWebLoginOptions) (nm : string) (m m1 : Manager)
    (page : Response) :
  middlewaretokenName cfg = Some nm -> nm <> EmptyString ->
  literal_name nm = true ->
  fetch_skipLogin cfg (loginPath cfg) None m = (Normal page, m1) ->
  text_rejects page = false ->
  login cfg m =
  let (r, m2) := fetch_skipLogin cfg (loginPath cfg)
                   (Some (loginOptions cfg (extract_token nm (text page)))) m1 in
  (match r with Normal _ => Normal tt | Throw e => Throw e end, m2).
Proof.
  intros H Hn Hl Hg Hr. rewrite (login_with_page cfg nm m m1 page H Hn Hg).
  unfold new_RegExp. now rewrite Hl, Hr.
Qed.

End SessionFacts.

(** * The token pattern *)

Section PatternFacts.

Lemma literal_append (lit s : string) : JS.literal lit (lit +:+ s) = Some s.
Proof.
  induction lit as [|a lit IH]; simpl; [reflexivity|].
  now rewrite Ascii.eqb_refl.
Qed.

(** The search passes every position at which the pattern does not match. *)
Lemma RegExp_exec_skip (nm : string) : forall (n : nat) (s : string),
  (forall k, (k < n)%nat -> match_at nm (JS.drop k s) = None) ->
  RegExp_exec nm s = RegExp_exec nm (JS.drop n s).
Proof.
  induction n as [|n IH]; intros s H; [reflexivity|].
  assert (H0 : match_at nm s = None) by (apply (H 0%nat); lia).
  destruct s as [|c s]; [reflexivity|].
  cbn [RegExp_exec JS.drop]. rewrite H0. apply IH.
  intros k Hk. apply (H (S k)). lia.
Qed.

Lemma RegExp_exec_here (nm s w : string) :
  match_at nm s = Some w -> RegExp_exec nm s = Some w.
Proof. intros H. destruct s; simpl; now rewrite H. Qed.

(** The token of a form field written [name=Q<nm>Q value=Q<token>Q], when
    the pattern has no match that starts before the field name. *)
Lemma extract_token_at (nm pre attr rest w : string) :
  (forall k, (k < String.length pre + String.length attr)%nat ->
             match_at nm (JS.drop k (pre +:+ attr +:+ nm +:+ rest)) = None) ->
  match_at nm (nm +:+ rest) = Some w ->
  extract_token nm (pre +:+ attr +:+ nm +:+ rest) = w.
Proof.
  intros Hi Hm. unfold extract_token.
  rewrite (RegExp_exec_skip _ _ _ Hi).
  rewrite <- length_append, <- append_assoc, drop_append.
  now rewrite (RegExp_exec_here _ _ _ Hm).
Qed.

End PatternFacts.

Section SessionClaims.
Context `{P : Platform}.

(** With a field name free of pattern syntax characters and a page that can
    be read, the POST of [login] carries the token found in the page. *)
Lemma login_posts_token (cfg : IWebLoginOptions) (nm : string) (m m1 : Manager)
    (page : Response) :
  middlewaretokenName cfg = Some nm -> nm <> EmptyString ->
  literal_name nm = true ->
  fetch_skipLogin cfg (loginPath cfg) None m = (Normal page, m1) ->
  text_rejects page = false ->
  let token := extract_token nm (text page) in
  fst (login cfg m) =
    match fst (fetch_skipLogin cfg (loginPath cfg)
                 (Some (loginOptions cfg token)) m1) with
    | Normal _ => Normal tt
    | Throw e => Throw e
    end /\
  sent (snd (login cfg m)) =
    sent m1 ++
    [ (baseURL cfg +:+ loginPath cfg,
       {| method := Some "POST"%string;
          redirect := Some "manual"%string;
          headers := [("content-type", "application/x-www-form-urlencoded");
                      ("cookie", cookie_header m1)]%string;
          body := Some (nm +:+ "=" +:+ token +:+ "&username=" +:+ username cfg
                        +:+ "&password=" +:+ password cfg) |}) ].
Proof.
  intros Hc Hn Hl Hg Hr token.
  rewrite (login_after_page cfg nm m m1 page Hc Hn Hl Hg Hr). fold token.
  pose proof (fetch_skipLogin_sent cfg (loginPath cfg)
                (Some (loginOptions cfg token)) m1) as S.
  destruct (fetch_skipLogin cfg (loginPath cfg) (Some (loginOptions cfg token)) m1)
    as [r m2]. cbn [fst snd] in *.
  split; [reflexivity|].
  rewrite S. unfold loginOptions, with_cookie. rewrite Hc. reflexivity.
Qed.

(** C7 (as amended).  Let the configured field name be free of pattern
    syntax characters and the login page have arrived and be readable.  If
    its body holds the attribute [name="<name>" value="abc123"] and the
    pattern has no match that starts before the field name of that
    attribute, the token extracted is [abc123] and [login] posts it; with
    single quotes and [xyz789] it is [xyz789].  When the pattern finds no
    match in the body, the token is the empty string and [login] goes on to
    hand the POST to the transport, with an empty token field; it throws
    only if that exchange does. *)
Theorem csrf_token_extraction (cfg : IWebLoginOptions) (nm : string)
    (m m1 : Manager) (page : Response) :
  middlewaretokenName cfg = Some nm ->
  nm <> EmptyString ->
  literal_name nm = true ->
  fetch_skipLogin cfg (loginPath cfg) None m = (Normal page, m1) ->
  text_rejects page = false ->
  let posts (token : string) :=
    fst (login cfg m) =
      match fst (fetch_skipLogin cfg (loginPath cfg)
                   (Some (loginOptions cfg token)) m1) with
      | Normal _ => Normal tt
      | Throw e => Throw e
      end /\
    sent (snd (login cfg m)) =
      sent m1 ++
      [ (baseURL cfg +:+ loginPath cfg,
         {| method := Some "POST"%string;
            redirect := Some "manual"%string;
            headers := [("content-type", "application/x-www-form-urlencoded");
                        ("cookie", cookie_header m1)]%string;
            body := Some (nm +:+ "=" +:+ token +:+ "&username=" +:+ username cfg
                          +:+ "&password=" +:+ password cfg) |}) ] in
  (forall pre post : string,
     text page = pre +:+ "name=" +:+ dq +:+ nm +:+ dq +:+ " value=" +:+ dq
                 +:+ "abc123" +:+ dq +:+ post ->
     (forall k, (k < String.length pre + 6)%nat ->
                match_at nm (JS.drop k (text page)) = None) ->
     extract_token nm (text page) = "abc123"%string /\ posts "abc123"%string) /\
  (forall pre post : string,
     text page = pre +:+ "name=" +:+ sq +:+ nm +:+ sq +:+ " value=" +:+ sq
                 +:+ "xyz789" +:+ sq +:+ post ->
     (forall k, (k < String.length pre + 6)%nat ->
                match_at nm (JS.drop k (text page)) = None) ->
     extract_token nm (text page) = "xyz789"%string /\ posts "xyz789"%string) /\
  (RegExp_exec nm (text page) = None ->
   extract_token nm (text page) = EmptyString /\ posts EmptyString).
Proof.
  intros Hc Hn Hl Hg Hr posts.
  pose proof (login_posts_token cfg nm m m1 page Hc Hn Hl Hg Hr) as Hp.
  cbv zeta in Hp.
  split; [|split].
  - intros pre post Ht Hk.
    assert (E : extract_token nm (text page) = "abc123"%string).
    { rewrite Ht in *.
      apply (extract_token_at nm pre ("name=" +:+ dq)); [exact Hk|].
      unfold match_at. rewrite literal_append. reflexivity. }
    split; [exact E|]. unfold posts. rewrite E in Hp. exact Hp.
  - intros pre post Ht Hk.
    assert (E : extract_token nm (text page) = "xyz789"%string).
    { rewrite Ht in *.
      apply (extract_token_at nm pre ("name=" +:+ sq)); [exact Hk|].
      unfold match_at. rewrite literal_append. reflexivity. }
    split; [exact E|]. unfold posts. rewrite E in Hp. exact Hp.
  - intros Hx.
    assert (E : extract_token nm (text page) = EmptyString)
      by (unfold extract_token; now rewrite Hx).
    split; [exact E|]. unfold posts. rewrite E in Hp. exact Hp.
Qed.

(** C8.  Constructed with [sessionidCookieName = "sessionid"] and
    [middlewaretokenName = "csrfmiddlewaretoken"], an instance with no
    cookies, run against a site that answers every request with well-formed
    cookies, serves its first [fetch("/protected")] by handing the transport
    exactly three requests: a GET to the login path, a POST to the login
    path whose body is [csrfmiddlewaretoken=<token>&username=<u>&password=<p>]
    with the token extracted from the page the GET returned, and then the
    GET to [/protected]. *)
Theorem first_fetch_logs_in_once (cfg : IWebLoginOptions) (m : Manager) :
  reliable ->
  sessionidCookieName cfg = "sessionid"%string ->
  middlewaretokenName cfg = Some "csrfmiddlewaretoken"%string ->
  this_cookies m = [] ->
  let get := {| method := None; redirect := None;
                headers := [("cookie", EmptyString)]%string; body := None |} in
  exists (page res : Response) (m' : Manager) (w' : World) (c2 c3 : string),
    fetch cfg "/protected" None false m = (Normal res, m') /\
    node_fetch (baseURL cfg +:+ loginPath cfg) get
               (snd (Date_now (snd (Date_now (world m))))) = (Some page, w') /\
    sent m' =
      sent m ++
      [ (baseURL cfg +:+ loginPath cfg, get);
        (baseURL cfg +:+ loginPath cfg,
         {| method := Some "POST"%string;
            redirect := Some "manual"%string;
            headers := [("content-type", "application/x-www-form-urlencoded");
                        ("cookie", c2)]%string;
            body := Some ("csrfmiddlewaretoken="
                          +:+ extract_token "csrfmiddlewaretoken" (text page)
                          +:+ "&username=" +:+ username cfg
                          +:+ "&password=" +:+ password cfg) |});
        (baseURL cfg +:+ "/protected",
         {| method := None; redirect := None;
            headers := [("cookie", c3)]%string; body := None |}) ].
Proof.
  intros R Hs Ht Hj get.
  set (m0 := {| this_cookies := []; world := snd (Date_now (world m)); sent := sent m |}).
  assert (E0 : getCookiesM m = (Normal EmptyString, m0)).
  { unfold getCookiesM, m0. rewrite Hj.
    destruct (Date_now (world m)) as [d w]. reflexivity. }
  destruct (fetch_skipLogin_reliable cfg (loginPath cfg) None m0 R)
    as (page & m1 & w1 & E1 & N1 & S1 & R1).
  assert (H0 : cookie_header m0 = EmptyString) by reflexivity.
  rewrite H0 in N1, S1.
  destruct (fetch_skipLogin_reliable cfg (loginPath cfg)
              (Some (loginOptions cfg (extract_token "csrfmiddlewaretoken" (text page))))
              m1 R) as (r2 & m2 & w2 & E2 & _ & S2 & _).
  destruct (fetch_skipLogin_reliable cfg "/protected" None m2 R)
    as (res & m3 & w3 & E3 & _ & S3 & _).
  assert (EL : login cfg m0 = (Normal tt, m2)).
  { rewrite (login_after_page cfg "csrfmiddlewaretoken" m0 m1 page Ht)
      by (discriminate || reflexivity || assumption).
    now rewrite E2. }
  exists page, res, m3, w1, (cookie_header m1), (cookie_header m2).
  split; [|split].
  - unfold fetch. cbv iota.
    rewrite (bind_normal _ _ m m2 tt); [exact E3|].
    rewrite (bind_normal _ _ m m0 EmptyString E0).
    rewrite Hs. simpl JS.includes. cbv iota. exact EL.
  - exact N1.
  - rewrite S3, S2, S1. rewrite <- !app_assoc. simpl.
    unfold loginOptions, with_cookie, get. rewrite Ht. reflexivity.
Qed.

End SessionClaims.

(** * The manager at work on the demonstration site *)

(** C1 (the code departs from it).  An instance holds a session cookie that
    expired at 1000 and the clock reads 2000, so no active cookie is named
    [sessionid].  Its next [fetch("/protected")] hands the transport the one
    request for [/protected], with an empty cookie header, and no login
    request: the text the login decision searches still lists the expired
    cookie as [sessionid=].  Only the [fetch] after that one logs in. *)
Theorem fetch_after_expiry_skips_login :
  let m := Demo.stale 2000 in
  let m' := snd (@fetch Demo.site Demo.options "/protected" None false m) in
  let m'' := snd (@fetch Demo.site Demo.options "/protected" None false m') in
  Spec.hasActive 2000 "sessionid" (this_cookies m) = false /\
  fst (getCookies 2000 (this_cookies m)) = "sessionid="%string /\
  sent m' =
    [ ("https://myapp.com/protected",
       {| method := None; redirect := None;
          headers := [("cookie", EmptyString)]; body := None |})%string ] /\
  map (fun r => (fst r, method (snd r))) (sent m'') =
    [ ("https://myapp.com/protected", None);
      ("https://myapp.com/login/", None);
      ("https://myapp.com/login/", Some "POST");
      ("https://myapp.com/protected", None) ]%string.
Proof. vm_compute. repeat split. Qed.

(** C4, as first stated, fails on a value that has [=] in it: of the header
    [tok=YWJj==; expires=...] the text between the first [=] and the first
    following [;] is [YWJj==], and the cookie stored has the value [YWJj].
    It also fails where white space surrounds a piece, which the code trims:
    of [sid = x1 ; expires=...] the text before the first [=] is [sid ] and
    the name stored is [sid]. *)
Lemma parse_cookie_value_with_equals :
  let h := "tok=YWJj==; expires=Wed, 01 Jan 2025 00:00:00 GMT"%string in
  let h' := "sid = x1 ; expires=Wed, 01 Jan 2025 00:00:00 GMT"%string in
  (@Spec.stored Demo.site h =
     Some {| name := "tok"; value := "YWJj=="; expires := Num 1735689600000 |} /\
   @updateCookies Demo.site (Some [h]) [] =
     (Normal tt, [ {| name := "tok"; value := "YWJj"; expires := Num 1735689600000 |} ]) /\
   @parse_cookie Demo.site h <> @Spec.stored Demo.site h) /\
  (@Spec.stored Demo.site h' =
     Some {| name := "sid "; value := " x1 "; expires := Num 1735689600000 |} /\
   @updateCookies Demo.site (Some [h']) [] =
     (Normal tt, [ {| name := "sid"; value := "x1"; expires := Num 1735689600000 |} ]) /\
   @parse_cookie Demo.site h' <> @Spec.stored Demo.site h').
Proof. vm_compute. repeat split; discriminate. Qed.

Lemma parse_cookie_fields_witness :
  let h := "sessionid=s3cr3t; expires=Wed, 01 Jan 2025 00:00:00 GMT; HttpOnly; Path=/"%string in
  let c := {| name := "sessionid"; value := "s3cr3t"; expires := Num 1735689600000 |} in
  (Spec.cookie_value h = Some "s3cr3t"%string /\
   Spec.cookie_expiry_text h = Some "Wed, 01 Jan 2025 00:00:00 GMT"%string /\
   JS.includes "s3cr3t" "=" = false /\
   JS.includes "Wed, 01 Jan 2025 00:00:00 GMT" "expires=" = false) /\
  @parse_cookie Demo.site h = Some c /\
  @updateCookies Demo.site (Some [h]) [] = (Normal tt, [c]) /\
  In c (snd (@updateCookies Demo.site (Some [h]) [])).
Proof.
  split; [repeat split|].
  exact (@parse_cookie_fields Demo.site
           "sessionid=s3cr3t; expires=Wed, 01 Jan 2025 00:00:00 GMT; HttpOnly; Path=/"
           "s3cr3t" "Wed, 01 Jan 2025 00:00:00 GMT" []
           eq_refl eq_refl eq_refl eq_refl).
Defined.

Lemma updateCookies_missing_expires_witness :
  let good := "a=1; expires=Wed, 01 Jan 2025 00:00:00 GMT"%string in
  let bad := "b=2; Path=/"%string in
  let raw := [good; bad; "c=3; expires=Wed, 01 Jan 2025 00:00:00 GMT"%string] in
  (In bad raw /\ JS.includes bad "expires=" = false) /\
  exists pre bad' post,
    raw = pre ++ bad' :: post /\
    @parse_cookie Demo.site bad' = None /\
    fst (@updateCookies Demo.site (Some pre) []) = Normal tt /\
    @updateCookies Demo.site (Some raw) [] =
      (Throw TypeError, snd (@updateCookies Demo.site (Some pre) [])).
Proof.
  split; [split; [right; left; reflexivity | reflexivity]|].
  apply (@updateCookies_missing_expires Demo.site _ [] "b=2; Path=/");
    [right; left; reflexivity | reflexivity].
Defined.

Lemma updateCookies_idempotent_witness :
  let raw := [ "a=1; expires=Wed, 01 Jan 2025 00:00:00 GMT";
               "b=2; expires=Wed, 01 Jan 2025 00:00:00 GMT";
               "a=3; expires=Thu, 01 Jan 1970 00:00:01 GMT" ]%string in
  let cookies := [ {| name := "b"; value := "0"; expires := Num 50 |} ] in
  let once := snd (@updateCookies Demo.site (Some raw) cookies) in
  let twice := snd (@updateCookies Demo.site (Some raw) once) in
  Forall (fun cookie => @parse_cookie Demo.site cookie <> None) raw /\
  @updateCookies Demo.site (Some raw) cookies = (Normal tt, once) /\
  @updateCookies Demo.site (Some raw) once = (Normal tt, twice) /\
  twice = once /\
  forall d, Spec.active d twice = Spec.active d once /\
            getCookies d twice = getCookies d once.
Proof.
  assert (W : Forall (fun cookie => @parse_cookie Demo.site cookie <> None)
                [ "a=1; expires=Wed, 01 Jan 2025 00:00:00 GMT";
                  "b=2; expires=Wed, 01 Jan 2025 00:00:00 GMT";
                  "a=3; expires=Thu, 01 Jan 1970 00:00:01 GMT" ]%string).
  { repeat constructor; vm_compute; discriminate. }
  split; [exact W|].
  exact (@updateCookies_idempotent Demo.site _
           [ {| name := "b"; value := "0"; expires := Num 50 |} ] W).
Defined.

Lemma cookie_names_unique_witness :
  let ops := [ Merge (Some ["a=1; expires=Wed, 01 Jan 2025 00:00:00 GMT"%string]);
               Read 5;
               Merge (Some ["b=2; expires=Wed, 01 Jan 2025 00:00:00 GMT"%string]) ] in
  let h := "a=9; expires=Thu, 01 Jan 1970 00:00:01 GMT"%string in
  let c := {| name := "a"; value := "9"; expires := Num 1000 |} in
  let cookies := @run Demo.site ops [] in
  let cookies' := @run Demo.site (ops ++ [Merge (Some [h])]) [] in
  (@parse_cookie Demo.site h = Some c /\ In (name c) (map name cookies)) /\
  NoDup (map name cookies) /\
  map name cookies' = map name cookies /\
  NoDup (map name cookies') /\
  In c cookies' /\
  forall c', In c' cookies -> name c' <> name c -> In c' cookies'.
Proof.
  intros ops h c cookies cookies'.
  destruct (@cookie_names_unique Demo.site ops) as [Hn Hm].
  split; [split; [reflexivity | left; reflexivity]|].
  split; [exact Hn|].
  exact (Hm h c eq_refl (or_introl eq_refl)).
Defined.

Lemma updateCookies_without_header_witness :
  let res := {| set_cookie := None; text := "ok"; text_rejects := false |} in
  let m := Demo.fresh 0 in
  set_cookie res = None /\
  @updateCookies Demo.site (set_cookie res) (this_cookies m) = (Normal tt, this_cookies m) /\
  @updateCookiesM Demo.site res m = (Normal tt, m).
Proof.
  split; [reflexivity|].
  exact (@updateCookies_without_header Demo.site
           {| set_cookie := None; text := "ok"; text_rejects := false |}
           (Demo.fresh 0) eq_refl).
Defined.

Lemma login_without_token_name_witness :
  middlewaretokenName Demo.options_no_token = None /\
  sent (snd (@login Demo.site Demo.options_no_token (Demo.fresh 5))) =
    [ ("https://myapp.com/login/",
       {| method := Some "POST";
          redirect := Some "manual";
          headers := [("content-type", "application/x-www-form-urlencoded");
                      ("cookie", EmptyString)];
          body := Some "undefined=&username=myusername&password=mysecurepassword" |})%string ].
Proof.
  split; [reflexivity|].
  exact (@login_without_token_name Demo.site Demo.options_no_token (Demo.fresh 5) eq_refl).
Defined.

Lemma site_reliable : @reliable Demo.site.
Proof.
  intros url o w. exists (Demo.respond o), w. split; [reflexivity|].
  unfold Demo.respond.
  destruct (method o) as [mth|]; [destruct (String.eqb mth "POST")|];
    (split; [|reflexivity]);
    intros raw Hraw; injection Hraw as <-;
    repeat constructor; vm_compute; discriminate.
Qed.

(** C7, as first stated, fails on a page that holds the attribute after an
    earlier match of the pattern: of a page with two forms, the first with
    the token [zzz] and the second with [name="csrfmiddlewaretoken"
    value="abc123"], the token extracted, and posted by [login], is [zzz]. *)
Lemma csrf_token_earlier_match :
  let nm := "csrfmiddlewaretoken"%string in
  let page := text Demo.two_forms_page in
  let pre := "<input name=" +:+ dq +:+ nm +:+ dq +:+ " value=" +:+ dq +:+ "zzz"
             +:+ dq +:+ "><input " in
  let m := @mkManager Demo.two_forms_site [] 7 [] in
  page = pre +:+ "name=" +:+ dq +:+ nm +:+ dq +:+ " value=" +:+ dq
         +:+ "abc123" +:+ dq +:+ ">" /\
  extract_token nm page = "zzz"%string /\
  extract_token nm page <> "abc123"%string /\
  map (fun r => body (snd r)) (sent (snd (@login Demo.two_forms_site Demo.options m))) =
    [ None;
      Some "csrfmiddlewaretoken=zzz&username=myusername&password=mysecurepassword"%string ].
Proof. vm_compute. repeat split. discriminate. Qed.

Lemma csrf_token_extraction_witness :
  let nm := "csrfmiddlewaretoken"%string in
  let cfg := Demo.options in
  let get := {| method := None; redirect := None;
                headers := [("cookie", EmptyString)]%string; body := None |} in
  let url := "https://myapp.com/login/"%string in
  let post (token cookie : string) :=
    (url, {| method := Some "POST";
             redirect := Some "manual";
             headers := [("content-type", "application/x-www-form-urlencoded");
                         ("cookie", cookie)];
             body := Some (nm +:+ "=" +:+ token
                           +:+ "&username=myusername&password=mysecurepassword") |})%string in
  let c := {| name := "csrftoken"; value := "c5rf"; expires := Num 1735689600000 |} in
  let pre1 := "<input type=" +:+ dq +:+ "hidden" +:+ dq +:+ " " in
  let m := Demo.fresh 7 in
  let m1 := @mkManager Demo.site [c] 8 [(url, get)] in
  let q := @mkManager Demo.quoted_site [] 7 [] in
  let q1 := @mkManager Demo.quoted_site [] 8 [(url, get)] in
  let p := @mkManager Demo.plain_site [] 7 [] in
  let p1 := @mkManager Demo.plain_site [] 8 [(url, get)] in
  (middlewaretokenName cfg = Some nm /\ nm <> EmptyString /\ literal_name nm = true) /\
  ((@fetch_skipLogin Demo.site cfg (loginPath cfg) None m = (Normal Demo.login_page, m1) /\
    text_rejects Demo.login_page = false /\
    text Demo.login_page = pre1 +:+ "name=" +:+ dq +:+ nm +:+ dq +:+ " value=" +:+ dq
                           +:+ "abc123" +:+ dq +:+ ">" /\
    (forall k, (k < String.length pre1 + 6)%nat ->
               match_at nm (JS.drop k (text Demo.login_page)) = None)) /\
   extract_token nm (text Demo.login_page) = "abc123"%string /\
   fst (@login Demo.site cfg m) = Normal tt /\
   sent (snd (@login Demo.site cfg m)) = sent m1 ++ [post "abc123" "csrftoken=c5rf"]%string) /\
  ((@fetch_skipLogin Demo.quoted_site cfg (loginPath cfg) None q
      = (Normal Demo.quoted_page, q1) /\
    text_rejects Demo.quoted_page = false /\
    text Demo.quoted_page = "<form><input " +:+ "name=" +:+ sq +:+ nm +:+ sq
                            +:+ " value=" +:+ sq +:+ "xyz789" +:+ sq +:+ "></form>" /\
    (forall k, (k < String.length "<form><input " + 6)%nat ->
               match_at nm (JS.drop k (text Demo.quoted_page)) = None)) /\
   extract_token nm (text Demo.quoted_page) = "xyz789"%string /\
   fst (@login Demo.quoted_site cfg q) = Normal tt /\
   sent (snd (@login Demo.quoted_site cfg q)) = sent q1 ++ [post "xyz789" EmptyString]%string) /\
  ((@fetch_skipLogin Demo.plain_site cfg (loginPath cfg) None p
      = (Normal Demo.plain_page, p1) /\
    text_rejects Demo.plain_page = false /\
    RegExp_exec nm (text Demo.plain_page) = None) /\
   extract_token nm (text Demo.plain_page) = EmptyString /\
   fst (@login Demo.plain_site cfg p) = Normal tt /\
   sent (snd (@login Demo.plain_site cfg p)) = sent p1 ++ [post EmptyString EmptyString]).
Proof.
  intros nm cfg get url post c pre1 m m1 q q1 p p1.
  assert (Hn : nm <> EmptyString) by discriminate.
  assert (K1 : forall k, (k < String.length pre1 + 6)%nat ->
                         match_at nm (JS.drop k (text Demo.login_page)) = None).
  { intros k Hk. do 27 (destruct k as [|k]; [reflexivity|]). simpl in Hk. lia. }
  assert (K2 : forall k, (k < String.length "<form><input " + 6)%nat ->
                         match_at nm (JS.drop k (text Demo.quoted_page)) = None).
  { intros k Hk. do 19 (destruct k as [|k]; [reflexivity|]). simpl in Hk. lia. }
  split; [repeat split; exact Hn|].
  split; [|split].
  - split; [repeat split; exact K1|].
    exact (proj1 (@csrf_token_extraction Demo.site cfg nm m m1 Demo.login_page
                    eq_refl Hn eq_refl eq_refl eq_refl)
             pre1 ">"%string eq_refl K1).
  - split; [repeat split; exact K2|].
    exact (proj1 (proj2 (@csrf_token_extraction Demo.quoted_site cfg nm q q1 Demo.quoted_page
                           eq_refl Hn eq_refl eq_refl eq_refl))
             "<form><input "%string "></form>"%string eq_refl K2).
  - split; [repeat split|].
    exact (proj2 (proj2 (@csrf_token_extraction Demo.plain_site cfg nm p p1 Demo.plain_page
                           eq_refl Hn eq_refl eq_refl eq_refl))
             eq_refl).
Defined.

Lemma first_fetch_logs_in_once_witness :
  let cfg := Demo.options in
  let m := Demo.fresh 1700000000000 in
  let get := {| method := None; redirect := None;
                headers := [("cookie", EmptyString)]%string; body := None |} in
  (@reliable Demo.site /\
   sessionidCookieName cfg = "sessionid"%string /\
   middlewaretokenName cfg = Some "csrfmiddlewaretoken"%string /\
   this_cookies m = []) /\
  exists (page res : Response) (m' : @Manager Demo.site) (w' : @World Demo.site)
         (c2 c3 : string),
    @fetch Demo.site cfg "/protected" None false m = (Normal res, m') /\
    @node_fetch Demo.site (baseURL cfg +:+ loginPath cfg) get
                (snd (@Date_now Demo.site (snd (@Date_now Demo.site (world m)))))
      = (Some page, w') /\
    sent m' =
      sent m ++
      [ (baseURL cfg +:+ loginPath cfg, get);
        (baseURL cfg +:+ loginPath cfg,
         {| method := Some "POST"%string;
            redirect := Some "manual"%string;
            headers := [("content-type", "application/x-www-form-urlencoded");
                        ("cookie", c2)]%string;
            body := Some ("csrfmiddlewaretoken="
                          +:+ extract_token "csrfmiddlewaretoken" (text page)
                          +:+ "&username=" +:+ username cfg
                          +:+ "&password=" +:+ password cfg) |});
        (baseURL cfg +:+ "/protected",
         {| method := None; redirect := None;
            headers := [("cookie", c3)]%string; body := None |}) ].
Proof.
  intros cfg m get.
  split; [repeat split; exact site_reliable|].
  exact (@first_fetch_logs_in_once Demo.site cfg m site_reliable eq_refl eq_refl eq_refl).
Defined.

(** * More on the cookie array *)

Section TextFacts.

Lemma prefix_refl (s : string) : prefix s s = true.
Proof. rewrite <- (append_empty_r s) at 2. apply prefix_append. Qed.

Lemma prefix_append_r (p s t : string) :
  prefix p s = true -> prefix p (s +:+ t) = true.
Proof.
  revert s. induction p as [|a p IH]; intros s H; [apply prefix_empty|].
  destruct s as [|b s]; [discriminate|]. simpl in *.
  destruct (ascii_dec a b); [now apply IH | discriminate].
Qed.

Lemma includes_refl (s : string) : JS.includes s s = true.
Proof. apply includes_prefix, prefix_refl. Qed.

Lemma includes_append_r (s t sub : string) :
  JS.includes s sub = true -> JS.includes (s +:+ t) sub = true.
Proof.
  induction s as [|c s IH]; cbn [JS.includes]; intros H.
  - rewrite orb_false_r in H. apply includes_prefix.
    now apply (prefix_append_r sub EmptyString t).
  - apply orb_true_iff in H as [H|H].
    + apply includes_prefix. now apply (prefix_append_r sub (String c s) t).
    + simpl. rewrite (IH H). apply orb_true_r.
Qed.

(** A joined text has in it whatever one of its pieces has. *)
Lemma includes_join (sep sub x : string) (l : list string) :
  In x l -> JS.includes x sub = true -> JS.includes (JS.join sep l) sub = true.
Proof.
  intros Hin Hx. induction l as [|y l IH]; [destruct Hin|].
  destruct Hin as [->|Hin].
  - destruct l as [|z l]; [exact Hx|]. cbn [JS.join]. now apply includes_append_r.
  - destruct l as [|z l]; [destruct Hin|]. cbn [JS.join].
    apply includes_append_l, includes_append_l. now apply IH.
Qed.

Lemma mark_expired_name (d : Z) (c : ICookie) : name (mark_expired d c) = name c.
Proof. unfold mark_expired. now destruct (ge_number d (expires c)). Qed.

Lemma mark_expired_live (d : Z) (c : ICookie) :
  ge_number d (expires c) = false -> mark_expired d c = c.
Proof. unfold mark_expired. now intros ->. Qed.

Lemma kept_iff (d : Z) (c : ICookie) :
  kept d c = true <-> ge_number d (expires c) = false /\ value c <> EmptyString.
Proof.
  unfold kept, has_value.
  rewrite andb_true_iff, !negb_true_iff, String.eqb_neq. tauto.
Qed.

(** One name, one cookie, in an array without repeated names. *)
Lemma NoDup_name_unique (cookies : list ICookie) (a b : ICookie) :
  NoDup (map name cookies) -> In a cookies -> In b cookies -> name a = name b -> a = b.
Proof.
  induction cookies as [|c cs IH]; simpl; [tauto|].
  intros H Ha Hb E. inversion H as [|? ? Hc Hcs]; subst.
  destruct Ha as [->|Ha]; destruct Hb as [->|Hb]; try reflexivity.
  - exfalso. apply Hc. rewrite E. now apply in_map.
  - exfalso. apply Hc. rewrite <- E. now apply in_map.
  - now apply IH.
Qed.

Lemma store_cookie_others (c c' : ICookie) (cookies : list ICookie) :
  In c' cookies -> name c' <> name c -> In c' (store_cookie c cookies).
Proof.
  intros H Hn.
  destruct (in_dec string_dec (name c) (map name cookies)) as [Hk|Hk].
  - rewrite store_cookie_known by assumption. now apply assign_first_others.
  - rewrite store_cookie_new by assumption. apply in_or_app. now left.
Qed.

Lemma store_cookie_length (c : ICookie) (cookies : list ICookie) :
  (length cookies <= length (store_cookie c cookies))%nat.
Proof.
  destruct (in_dec string_dec (name c) (map name cookies)) as [Hk|Hk].
  - rewrite store_cookie_known by assumption. now rewrite assign_first_length.
  - rewrite store_cookie_new by assumption. rewrite length_app. lia.
Qed.

Lemma store_all_length (cs : list ICookie) : forall cookies,
  (length cookies <= length (store_all cs cookies))%nat.
Proof.
  induction cs as [|c cs IH]; intros cookies; simpl; [lia|].
  etransitivity; [apply (store_cookie_length c) | apply IH].
Qed.

End TextFacts.

Section ReadExtras.

Lemma getCookies_snd (d : Z) (cookies : list ICookie) :
  snd (getCookies d cookies) = filter (kept d) cookies.
Proof.
  unfold getCookies. cbn [snd].
  induction cookies as [|c cs IH]; [reflexivity|].
  cbn [map filter]. rewrite IH.
  assert (E : has_value (mark_expired d c) = kept d c).
  { unfold kept, mark_expired. now destruct (ge_number d (expires c)). }
  rewrite E. destruct (kept d c) eqn:K; [|reflexivity].
  apply kept_iff in K as [K _]. now rewrite mark_expired_live.
Qed.

(** X1.  A read leaves in the array exactly the cookies that are not expired
    at that time and have a non-empty value, in their order and untouched: a
    cookie stored with an empty value goes with the expired ones. *)
Theorem getCookies_remaining (d : Z) (cookies : list ICookie) :
  snd (getCookies d cookies) = filter (kept d) cookies /\
  forall c, In c (snd (getCookies d cookies)) <->
            In c cookies /\ ge_number d (expires c) = false /\ value c <> EmptyString.
Proof.
  split; [apply getCookies_snd|].
  intros c. rewrite getCookies_snd, filter_In, kept_iff. tauto.
Qed.

Lemma getCookies_all_kept (d : Z) (cookies : list ICookie) :
  (forall c, In c cookies -> kept d c = true) ->
  getCookies d cookies = (JS.join "; " (map pair_text cookies), cookies).
Proof.
  intros H. unfold getCookies.
  assert (E : map (mark_expired d) cookies = cookies).
  { induction cookies as [|c cs IH]; [reflexivity|]. cbn [map].
    rewrite mark_expired_live by (apply kept_iff, H; now left).
    rewrite IH; [reflexivity|]. intros c' Hc'. apply H. now right. }
  rewrite E. f_equal.
  induction cookies as [|c cs IH]; [reflexivity|]. cbn [filter].
  assert (Hc : has_value c = true).
  { specialize (H c (or_introl eq_refl)). unfold kept in H.
    now apply andb_true_iff in H. }
  rewrite Hc. f_equal. apply IH.
  - intros c' Hc'. apply H. now right.
  - cbn [map] in E. now injection E.
Qed.

(** X2.  After a read, a later read at a time by which none of the cookies
    left has expired changes nothing, and its text lists exactly those
    cookies, each as [name=value]. *)
Theorem getCookies_again (d d' : Z) (cookies : list ICookie) :
  (forall c, In c (snd (getCookies d cookies)) -> ge_number d' (expires c) = false) ->
  getCookies d' (snd (getCookies d cookies)) =
  (JS.join "; " (map pair_text (snd (getCookies d cookies))), snd (getCookies d cookies)).
Proof.
  intros H. apply getCookies_all_kept. intros c Hc.
  apply kept_iff. split; [now apply H|].
  rewrite getCookies_snd in Hc. apply filter_In in Hc as [_ Hc].
  now apply kept_iff in Hc.
Qed.

(** X3.  A cookie whose expiry is [NaN] (its date did not parse) and whose
    value is not empty is never dropped: it is in the array after any run of
    reads, at whatever times. *)
Theorem nan_cookie_never_expires (c : ICookie) (times : list Z) :
  forall cookies : list ICookie,
    In c cookies -> expires c = NaN -> value c <> EmptyString ->
    In c (fold_left (fun cs d => snd (getCookies d cs)) times cookies) /\
    forall d, JS.includes (fst (getCookies d cookies)) (pair_text c) = true.
Proof.
  induction times as [|d ds IH]; intros cookies Hin He Hv.
  - split; [exact Hin|]. intros d. unfold getCookies. cbn [fst].
    apply (includes_join _ _ (pair_text c)); [|apply includes_refl].
    apply in_map_iff. exists c. split; [reflexivity|].
    apply in_map_iff. exists c. split; [|assumption].
    apply mark_expired_live. now rewrite He.
  - split.
    + cbn [fold_left]. apply IH; try assumption.
      rewrite getCookies_snd. apply filter_In. split; [assumption|].
      apply kept_iff. now rewrite He.
    + apply (IH cookies Hin He Hv).
Qed.

End ReadExtras.

Section MergeExtras.
Context `{P : Platform}.

Lemma forEach_cookie_keeps (raw : list string) (c : ICookie) : forall cookies,
  In c cookies ->
  (forall h' c', In h' raw -> parse_cookie h' = Some c' -> name c' <> name c) ->
  In c (snd (forEach_cookie raw cookies)).
Proof.
  induction raw as [|h raw IH]; intros cookies Hin Hn; [exact Hin|].
  cbn [forEach_cookie]. destruct (parse_cookie h) as [c'|] eqn:Hp; [|exact Hin].
  apply IH.
  - apply store_cookie_others; [assumption|].
    intros E. apply (Hn h c'); [now left | assumption | now symmetry].
  - intros h' c'' Hh'. apply Hn. now right.
Qed.

Lemma updateCookies_one (h : string) (c : ICookie) (cookies : list ICookie) :
  parse_cookie h = Some c ->
  updateCookies (Some [h]) cookies = (Normal tt, store_cookie c cookies).
Proof. intros H. simpl. now rewrite H. Qed.

(** X4.  [updateCookies] returns normally exactly when every [set-cookie]
    value has the text [expires=] in it (in lower case): nothing else makes
    it throw. *)
Theorem updateCookies_normal_iff (raw : list string) (cookies : list ICookie) :
  fst (updateCookies (Some raw) cookies) = Normal tt <->
  Forall (fun h => JS.includes h "expires=" = true) raw.
Proof.
  cbn [updateCookies]. revert cookies.
  induction raw as [|h raw IH]; intros cookies; cbn [forEach_cookie].
  - split; [constructor | reflexivity].
  - destruct (parse_cookie h) as [c|] eqn:Hp.
    + rewrite IH. split.
      * intros H. constructor; [|exact H].
        apply parse_cookie_some_iff. congruence.
      * intros H. now inversion H.
    + split; [discriminate|].
      intros H. inversion H as [|? ? Hh _]; subst.
      apply parse_cookie_some_iff in Hh. congruence.
Qed.

(** X5.  When several headers of one response set the same name, the last
    of them wins: its cookie is the one in the array after the merge. *)
Theorem last_header_wins (pre post : list string) (h : string) (c : ICookie)
    (cookies : list ICookie) :
  Forall (fun h' => parse_cookie h' <> None) pre ->
  parse_cookie h = Some c ->
  (forall h' c', In h' post -> parse_cookie h' = Some c' -> name c' <> name c) ->
  In c (snd (updateCookies (Some (pre ++ h :: post)) cookies)).
Proof.
  intros Hpre Hh Hpost. cbn [updateCookies].
  rewrite forEach_cookie_app by (now apply forEach_cookie_well_formed).
  cbn [forEach_cookie]. rewrite Hh.
  apply forEach_cookie_keeps; [apply store_cookie_In | exact Hpost].
Qed.

(** X6.  A merge never removes a cookie and never shortens the array, also
    when it throws; a read never adds one. *)
Theorem merge_keeps_read_drops (raw : option (list string)) (d : Z)
    (cookies : list ICookie) :
  (forall nm, In nm (map name cookies) ->
              In nm (map name (snd (updateCookies raw cookies)))) /\
  (length cookies <= length (snd (updateCookies raw cookies)))%nat /\
  (forall c, In c (snd (getCookies d cookies)) -> In c cookies) /\
  (length (snd (getCookies d cookies)) <= length cookies)%nat.
Proof.
  repeat split.
  - intros nm H. destruct raw as [l|]; [|exact H]. cbn [updateCookies].
    rewrite forEach_cookie_stores. now apply store_all_keeps_names.
  - destruct raw as [l|]; [|apply Nat.le_refl]. cbn [updateCookies].
    rewrite forEach_cookie_stores. apply store_all_length.
  - intros c H. rewrite getCookies_snd in H. now apply filter_In in H.
  - rewrite getCookies_snd. apply filter_length_le.
Qed.

(** X7.  A header whose expiry lies at or before the time of the next read
    takes the cookie of its name out of the array at that read; this is how a
    site deletes a cookie.  The cookies of other names that the read keeps
    stay. *)
Theorem expired_header_removes (cookies : list ICookie) (h : string) (c : ICookie)
    (z d : Z) :
  NoDup (map name cookies) ->
  parse_cookie h = Some c ->
  expires c = Num z ->
  z <= d ->
  let cookies' := snd (getCookies d (snd (updateCookies (Some [h]) cookies))) in
  ~ In (name c) (map name cookies') /\
  forall c', In c' cookies -> name c' <> name c -> kept d c' = true -> In c' cookies'.
Proof.
  intros Hnd Hp He Hz cookies'. unfold cookies'.
  rewrite (updateCookies_one h c) by assumption. cbn [snd].
  rewrite getCookies_snd. split.
  - intros Hin. apply in_map_iff in Hin as (c' & En & Hc').
    apply filter_In in Hc' as [Hc' Hk].
    assert (E : c' = c).
    { apply (NoDup_name_unique (store_cookie c cookies)); try assumption.
      - now apply store_cookie_NoDup.
      - apply store_cookie_In. }
    subst c'. apply kept_iff in Hk as [Hk _].
    rewrite He in Hk. simpl in Hk. apply Z.leb_gt in Hk. lia.
  - intros c' Hc' Hn Hk. apply filter_In. split; [|assumption].
    now apply store_cookie_others.
Qed.

(** X8.  A header whose cookie has a value and is not expired at the next
    read is stored and sent: after the merge, the read keeps the cookie and
    its text has [name=value] in it. *)
Theorem stored_cookie_is_sent (cookies : list ICookie) (h : string) (c : ICookie)
    (d : Z) :
  parse_cookie h = Some c ->
  ge_number d (expires c) = false ->
  value c <> EmptyString ->
  let merged := snd (updateCookies (Some [h]) cookies) in
  JS.includes (fst (getCookies d merged)) (pair_text c) = true /\
  In c (snd (getCookies d merged)).
Proof.
  intros Hp He Hv merged. unfold merged.
  rewrite (updateCookies_one h c) by assumption. cbn [snd].
  assert (Hin : In c (store_cookie c cookies)) by apply store_cookie_In.
  split.
  - unfold getCookies. cbn [fst].
    apply (includes_join _ _ (pair_text c)); [|apply includes_refl].
    apply in_map_iff. exists c. split; [reflexivity|].
    apply in_map_iff. exists c. split; [now apply mark_expired_live | assumption].
  - rewrite getCookies_snd. apply filter_In. split; [assumption|].
    now apply kept_iff.
Qed.

End MergeExtras.

(** * More on [fetch] and [login] *)

Section SessionExtras.
Context `{P : Platform}.

Lemma get_set_property (k v : string) (h : list (string * string)) :
  get_property k (set_property k v h) = Some v.
Proof.
  induction h as [|[k' v'] h IH]; simpl.
  - now rewrite String.eqb_refl.
  - destruct (String.eqb k' k) eqn:E; simpl; [now rewrite String.eqb_refl|].
    now rewrite E.
Qed.

Lemma get_set_property_other (k k0 v : string) (h : list (string * string)) :
  k0 <> k -> get_property k0 (set_property k v h) = get_property k0 h.
Proof.
  intros Hn. induction h as [|[k' v'] h IH]; simpl.
  - apply String.eqb_neq in Hn. now rewrite String.eqb_sym, Hn.
  - destruct (String.eqb_spec k' k) as [->|E]; simpl.
    + apply String.eqb_neq in Hn. now rewrite String.eqb_sym, Hn.
    + now rewrite IH.
Qed.

Lemma fetch_skip cfg path options (m : Manager) :
  fetch cfg path options true m = fetch_skipLogin cfg path options m.
Proof. unfold fetch. cbv iota. now rewrite (bind_normal _ _ m m tt). Qed.

Lemma getCookiesM_sent (m : Manager) : sent (snd (getCookiesM m)) = sent m.
Proof.
  unfold getCookiesM. destruct (Date_now (world m)) as [d w].
  now destruct (getCookies d (this_cookies m)).
Qed.

(** [fetch(path, options, true)], step by step. *)
Lemma fetch_skipLogin_unfold cfg path options (m : Manager) :
  fetch_skipLogin cfg path options m =
  let pruned := snd (getCookies (fst (Date_now (world m))) (this_cookies m)) in
  let url := baseURL cfg +:+ path in
  let o := with_cookie options (cookie_header m) in
  let snt := sent m ++ [(url, o)] in
  match node_fetch url o (snd (Date_now (world m))) with
  | (None, w') => (Throw FetchError, mkManager pruned w' snt)
  | (Some res, w') =>
      (match fst (updateCookies (set_cookie res) pruned) with
       | Normal _ => Normal res
       | Throw e => Throw e
       end,
       mkManager (snd (updateCookies (set_cookie res) pruned)) w' snt)
  end.
Proof.
  unfold fetch_skipLogin, bind, getCookiesM, transport, updateCookiesM, ret, cookie_header.
  destruct (Date_now (world m)) as [d w]. cbn [fst snd].
  destruct (getCookies d (this_cookies m)) as [a cs]. cbn [fst snd this_cookies world sent].
  destruct (node_fetch _ _ w) as [[res|] w']; [|reflexivity].
  cbn [this_cookies world sent].
  destruct (updateCookies (set_cookie res) cs) as [[[]|e] cs']; reflexivity.
Qed.

Lemma forEach_cookie_throws (raw : list string) (h : string) : forall cookies,
  In h raw -> parse_cookie h = None ->
  fst (forEach_cookie raw cookies) = Throw TypeError.
Proof.
  induction raw as [|x raw IH]; intros cookies Hin Hh; [destruct Hin|].
  cbn [forEach_cookie]. destruct (parse_cookie x) as [c|] eqn:Hx; [|reflexivity].
  destruct Hin as [->|Hin]; [congruence | now apply IH].
Qed.

Lemma forEach_cookie_adds_name (raw : list string) (h : string) (c : ICookie) :
  forall cookies,
    fst (forEach_cookie raw cookies) = Normal tt ->
    In h raw -> parse_cookie h = Some c ->
    In (name c) (map name (snd (forEach_cookie raw cookies))).
Proof.
  induction raw as [|x raw IH]; intros cookies Hn Hin Hh; [destruct Hin|].
  cbn [forEach_cookie] in *. destruct (parse_cookie x) as [c'|] eqn:Hx; [|discriminate].
  destruct Hin as [->|Hin]; [|now apply IH].
  rewrite forEach_cookie_stores. apply store_all_keeps_names.
  replace c' with c by congruence. apply store_cookie_has_name.
Qed.

(** The header text names every stored cookie, expired or not. *)
Lemma header_includes_name (d : Z) (cookies : list ICookie) (c : ICookie) (sub : string) :
  In c cookies -> JS.includes (name c) sub = true ->
  JS.includes (fst (getCookies d cookies)) sub = true.
Proof.
  intros Hin Hs. unfold getCookies. cbn [fst].
  apply (includes_join _ _ (pair_text (mark_expired d c))).
  - apply in_map, in_map, Hin.
  - unfold pair_text. rewrite mark_expired_name. now apply includes_append_r.
Qed.

Lemma login_throw_at_page (cfg : IWebLoginOptions) (m m1 : Manager) (e : error) :
  truthy (middlewaretokenName cfg) = true ->
  fetch_skipLogin cfg (loginPath cfg) None m = (Throw e, m1) ->
  login cfg m = (Throw e, m1).
Proof.
  intros Ht Hg. unfold login. rewrite Ht.
  apply bind_throw. now apply bind_throw.
Qed.

Lemma login_sent (cfg : IWebLoginOptions) (m : Manager) :
  exists l,
    sent (snd (login cfg m)) = sent m ++ l /\
    (1 <= length l <= 2)%nat /\
    Forall (fun r => fst r = baseURL cfg +:+ loginPath cfg) l.
Proof.
  destruct (truthy (middlewaretokenName cfg)) eqn:Ht.
  - pose proof (fetch_skipLogin_sent cfg (loginPath cfg) None m) as S1.
    destruct (fetch_skipLogin cfg (loginPath cfg) None m) as [[page|e] m1] eqn:E1;
      cbn [snd] in S1.
    + destruct (middlewaretokenName cfg) as [[|a nm]|] eqn:Hc; try discriminate.
      rewrite (login_with_page cfg (String a nm) m m1 page Hc) by (discriminate || exact E1).
      destruct (new_RegExp (String a nm)) as [exec|];
        [destruct (text_rejects page)|].
      * cbn [snd]. eexists. split; [rewrite S1; reflexivity|].
        split; [simpl; lia | repeat constructor].
      * set (tok := template (exec (text page))).
        pose proof (fetch_skipLogin_sent cfg (loginPath cfg)
                      (Some (loginOptions cfg tok)) m1) as S2.
        destruct (fetch_skipLogin cfg (loginPath cfg) (Some (loginOptions cfg tok)) m1)
          as [r m2]. cbn [snd] in *.
        eexists. split; [rewrite S2, S1, <- app_assoc; reflexivity|].
        split; [simpl; lia | repeat constructor].
      * cbn [snd]. eexists. split; [rewrite S1; reflexivity|].
        split; [simpl; lia | repeat constructor].
    + rewrite (login_throw_at_page cfg m m1 e Ht E1). cbn [snd].
      eexists. split; [rewrite S1; reflexivity|].
      split; [simpl; lia | repeat constructor].
  - unfold login. rewrite Ht.
    rewrite (bind_normal _ _ m m (Some EmptyString)) by reflexivity.
    simpl template.
    pose proof (fetch_skipLogin_sent cfg (loginPath cfg)
                  (Some (loginOptions cfg EmptyString)) m) as S2.
    unfold bind, ret.
    destruct (fetch_skipLogin cfg (loginPath cfg) (Some (loginOptions cfg EmptyString)) m)
      as [[r|e] m2]; cbn [snd] in *;
      (eexists; split; [rewrite S2; reflexivity|]);
      (split; [simpl; lia | repeat constructor]).
Qed.

End SessionExtras.

Section SessionProperties.
Context `{P : Platform}.

(** X9.  [fetch(path, options, true)] hands the transport one request, for
    [baseURL + path], with the caller's method, redirect mode and body.  Its
    headers object has the property [cookie], under that exact key, set to
    the text of the stored cookies.  When the caller's headers are a plain
    object, every property under another key (a [Cookie] in another case
    too) is passed on beside it, unchanged.  When they are a [Headers]
    instance, or absent, [cookie] is the only property: the entries of a
    [Headers] instance are not passed on.  When they are an array of rows,
    each row is passed under its index. *)
Theorem fetch_forwards_request cfg path (o : RequestOptions) (m : Manager) :
  exists r : RequestInit,
    sent (snd (fetch cfg path (Some o) true m)) = sent m ++ [(baseURL cfg +:+ path, r)] /\
    method r = o_method o /\ redirect r = o_redirect o /\ body r = o_body o /\
    get_property "cookie" (headers r) = Some (cookie_header m) /\
    (forall props, o_headers o = Some (HeadersObject props) ->
       forall k, k <> "cookie"%string ->
                 get_property k (headers r) = get_property k props) /\
    (forall entries, o_headers o = Some (HeadersInstance entries) ->
       headers r = [("cookie"%string, cookie_header m)]) /\
    (o_headers o = None -> headers r = [("cookie"%string, cookie_header m)]) /\
    (forall rows, o_headers o = Some (HeadersArray rows) ->
       forall k, k <> "cookie"%string ->
                 get_property k (headers r) = get_property k (array_properties 0 rows)).
Proof.
  exists (with_cookie (Some o) (cookie_header m)).
  rewrite fetch_skip, fetch_skipLogin_sent. cbn [with_cookie method redirect body headers].
  split; [reflexivity|]. split; [reflexivity|]. split; [reflexivity|].
  split; [reflexivity|]. split; [apply get_set_property|].
  split; [|split; [|split]].
  - intros props H k Hk. rewrite H. now apply get_set_property_other.
  - intros entries H. now rewrite H.
  - intros H. now rewrite H.
  - intros rows H k Hk. rewrite H. now apply get_set_property_other.
Qed.

(** X10.  A response that sets a cookie without [expires=] (a session
    cookie, say) makes [fetch] reject with a [TypeError], although the
    request was sent and answered. *)
Theorem fetch_rejects_cookie_without_expires cfg path options (m : Manager)
    (res : Response) (w' : World) (raw : list string) (h : string) :
  node_fetch (baseURL cfg +:+ path) (with_cookie options (cookie_header m))
             (snd (Date_now (world m))) = (Some res, w') ->
  set_cookie res = Some raw ->
  In h raw ->
  JS.includes h "expires=" = false ->
  fst (fetch_skipLogin cfg path options m) = Throw TypeError /\
  sent (snd (fetch_skipLogin cfg path options m)) =
    sent m ++ [(baseURL cfg +:+ path, with_cookie options (cookie_header m))].
Proof.
  intros Hf Hr Hin Hh. split; [|apply fetch_skipLogin_sent].
  rewrite fetch_skipLogin_unfold. cbv zeta. rewrite Hf, Hr. cbn [fst updateCookies].
  rewrite (forEach_cookie_throws raw h); [reflexivity | assumption |].
  now apply parse_cookie_needs_expires.
Qed.

(** X11.  When the transport rejects, [fetch] rejects with that failure; the
    cookie array has been pruned by the read and is otherwise as it was.
    When [fetch] returns, what it returns is the response the transport
    gave, and the array is the pruned one with that response's cookies
    merged in. *)
Theorem fetch_outcome cfg path options (m : Manager) :
  let pruned := snd (getCookies (fst (Date_now (world m))) (this_cookies m)) in
  let url := baseURL cfg +:+ path in
  let o := with_cookie options (cookie_header m) in
  (forall w', node_fetch url o (snd (Date_now (world m))) = (None, w') ->
     fetch_skipLogin cfg path options m =
       (Throw FetchError, mkManager pruned w' (sent m ++ [(url, o)]))) /\
  (forall res m', fetch_skipLogin cfg path options m = (Normal res, m') ->
     (exists w', node_fetch url o (snd (Date_now (world m))) = (Some res, w')) /\
     updateCookies (set_cookie res) pruned = (Normal tt, this_cookies m')).
Proof.
  intros pruned url o. split.
  - intros w' H. rewrite fetch_skipLogin_unfold. cbv zeta. fold url o. now rewrite H.
  - intros res m'. rewrite fetch_skipLogin_unfold. cbv zeta. fold pruned url o.
    destruct (node_fetch url o (snd (Date_now (world m)))) as [[res'|] w']; [|discriminate].
    destruct (fst (updateCookies (set_cookie res') pruned)) as [[]|e] eqn:Hu;
      [|discriminate].
    intros H. injection H as <- <-. split; [now exists w'|].
    cbn [this_cookies].
    now rewrite (surjective_pairing (updateCookies (set_cookie res') pruned)), Hu.
Qed.

(** X12.  With a token name configured, when the request for the login page
    fails, [login] fails with the same error and the credentials are not
    posted: that request is the only one sent. *)
Theorem login_stops_at_page cfg (m m1 : Manager) (e : error) :
  truthy (middlewaretokenName cfg) = true ->
  fetch_skipLogin cfg (loginPath cfg) None m = (Throw e, m1) ->
  login cfg m = (Throw e, m1) /\
  sent (snd (login cfg m)) =
    sent m ++ [(baseURL cfg +:+ loginPath cfg, with_cookie None (cookie_header m))].
Proof.
  intros Ht Hg. rewrite (login_throw_at_page cfg m m1 e Ht Hg). split; [reflexivity|].
  pose proof (fetch_skipLogin_sent cfg (loginPath cfg) None m) as S.
  now rewrite Hg in S.
Qed.

(** X13.  One [fetch] hands the transport at most two requests for the login
    path, then the request for the path asked; there is no second login
    attempt.  With [skipLogin] set there is no login request.  The request
    for the path is missing only when the login threw, and then [fetch]
    throws too. *)
Theorem fetch_requests cfg path options (skipLogin : bool) (m : Manager) :
  exists logins rest,
    sent (snd (fetch cfg path options skipLogin m)) = sent m ++ logins ++ rest /\
    (length logins <= 2)%nat /\
    Forall (fun r => fst r = baseURL cfg +:+ loginPath cfg) logins /\
    (skipLogin = true -> logins = []) /\
    ((exists cookie, rest = [(baseURL cfg +:+ path, with_cookie options cookie)]) \/
     (rest = [] /\ logins <> [] /\
      exists e, fst (fetch cfg path options skipLogin m) = Throw e)).
Proof.
  destruct skipLogin.
  - exists [], [(baseURL cfg +:+ path, with_cookie options (cookie_header m))].
    rewrite fetch_skip, fetch_skipLogin_sent.
    split; [reflexivity|]. split; [simpl; lia|]. split; [constructor|].
    split; [reflexivity|]. left. now eexists.
  - rewrite fetch_decision. cbv zeta.
    set (m0 := snd (getCookiesM m)).
    assert (S0 : sent m0 = sent m) by apply getCookiesM_sent.
    destruct (JS.includes (cookie_header m) (sessionidCookieName cfg)).
    + exists [], [(baseURL cfg +:+ path, with_cookie options (cookie_header m0))].
      rewrite fetch_skipLogin_sent, S0.
      split; [reflexivity|]. split; [simpl; lia|]. split; [constructor|].
      split; [discriminate|]. left. now eexists.
    + destruct (login_sent cfg m0) as (l & Sl & Hl & Fl).
      destruct (login cfg m0) as [[[]|e] m1] eqn:EL; cbn [snd] in Sl.
      * exists l, [(baseURL cfg +:+ path, with_cookie options (cookie_header m1))].
        rewrite (bind_normal _ _ m0 m1 tt EL).
        rewrite fetch_skipLogin_sent, Sl, S0, <- app_assoc.
        split; [reflexivity|]. split; [lia|]. split; [assumption|].
        split; [discriminate|]. left. now eexists.
      * exists l, []. rewrite (bind_throw _ _ m0 m1 e EL). cbn [fst snd].
        rewrite Sl, S0, app_nil_r.
        split; [reflexivity|]. split; [lia|]. split; [assumption|].
        split; [discriminate|]. right.
        split; [reflexivity|]. split; [|now exists e].
        intros ->. simpl in Hl. lia.
Qed.

(** X14.  While a cookie whose name has the session cookie's name in it is
    stored, expired or not, [fetch] does not log in: it goes straight to the
    one request for the path. *)
Theorem fetch_with_session_name cfg path options (m : Manager) (c : ICookie) :
  In c (this_cookies m) ->
  JS.includes (name c) (sessionidCookieName cfg) = true ->
  fetch cfg path options false m =
    fetch_skipLogin cfg path options (snd (getCookiesM m)) /\
  sent (snd (fetch cfg path options false m)) =
    sent m ++ [(baseURL cfg +:+ path,
                with_cookie options (cookie_header (snd (getCookiesM m))))].
Proof.
  intros Hin Hs.
  assert (E : fetch cfg path options false m =
              fetch_skipLogin cfg path options (snd (getCookiesM m))).
  { rewrite fetch_decision. cbv zeta. unfold cookie_header.
    now rewrite (header_includes_name _ _ c _ Hin Hs). }
  split; [exact E|].
  now rewrite E, fetch_skipLogin_sent, getCookiesM_sent.
Qed.

(** X15.  Once a [fetch] has returned a response that set a cookie under
    the session cookie's name, as the POST of a successful login does, the
    next [fetch] sends its one request and no login request. *)
Theorem session_established cfg p o path options (m m1 : Manager)
    (res : Response) (raw : list string) (h : string) (c : ICookie) :
  fetch_skipLogin cfg p o m = (Normal res, m1) ->
  set_cookie res = Some raw ->
  In h raw ->
  parse_cookie h = Some c ->
  name c = sessionidCookieName cfg ->
  In (sessionidCookieName cfg) (map name (this_cookies m1)) /\
  sent (snd (fetch cfg path options false m1)) =
    sent m1 ++ [(baseURL cfg +:+ path,
                 with_cookie options (cookie_header (snd (getCookiesM m1))))].
Proof.
  intros Hf Hr Hin Hp Hn.
  assert (Hs : In (sessionidCookieName cfg) (map name (this_cookies m1))).
  { rewrite fetch_skipLogin_unfold in Hf. cbv zeta in Hf.
    destruct (node_fetch _ _ _) as [[res'|] w']; [|discriminate].
    destruct (fst (updateCookies (set_cookie res') _)) as [[]|e] eqn:Hu; [|discriminate].
    injection Hf as <- <-. cbn [this_cookies].
    rewrite Hr in *. cbn [updateCookies] in *. rewrite <- Hn.
    now apply (forEach_cookie_adds_name raw h). }
  split; [exact Hs|].
  apply in_map_iff in Hs as (c' & Ec' & Hc').
  assert (Hi : JS.includes (name c') (sessionidCookieName cfg) = true)
    by (rewrite Ec'; apply includes_refl).
  rewrite fetch_decision. cbv zeta. unfold cookie_header at 1.
  rewrite (header_includes_name _ _ c' _ Hc' Hi).
  now rewrite fetch_skipLogin_sent, getCookiesM_sent.
Qed.

(** X16.  With no session cookie listed and a token name configured, a
    login page that arrives but cannot be used stops the [fetch] after the
    one GET for it: when the token name is not a valid pattern [fetch] throws
    a [SyntaxError], and when the pattern is valid but the body cannot be
    read it rejects with the failure of the read.  Neither the credentials
    nor the request for the path are sent. *)
Theorem fetch_stops_at_unusable_page cfg path options (nm : string)
    (m m1 : Manager) (page : Response) :
  JS.includes (cookie_header m) (sessionidCookieName cfg) = false ->
  middlewaretokenName cfg = Some nm ->
  nm <> EmptyString ->
  fetch_skipLogin cfg (loginPath cfg) None (snd (getCookiesM m)) = (Normal page, m1) ->
  (new_RegExp nm = None ->
     fetch cfg path options false m = (Throw SyntaxError, m1)) /\
  (new_RegExp nm <> None -> text_rejects page = true ->
     fetch cfg path options false m = (Throw FetchError, m1)) /\
  sent m1 =
    sent m ++ [(baseURL cfg +:+ loginPath cfg,
                with_cookie None (cookie_header (snd (getCookiesM m))))].
Proof.
  intros Hs Hc Hn Hg.
  pose proof (login_with_page cfg nm (snd (getCookiesM m)) m1 page Hc Hn Hg) as HL.
  rewrite fetch_decision, Hs. cbv zeta.
  split; [|split].
  - intros Hr. rewrite Hr in HL. now apply bind_throw.
  - intros Hr Ht. destruct (new_RegExp nm) as [exec|]; [|congruence].
    rewrite Ht in HL. now apply bind_throw.
  - pose proof (fetch_skipLogin_sent cfg (loginPath cfg) None (snd (getCookiesM m))) as S.
    rewrite Hg in S. cbn [snd] in S. now rewrite S, getCookiesM_sent.
Qed.

End SessionProperties.

(** * The further properties at work *)

Lemma getCookies_again_witness :
  let a := {| name := "a"; value := "1"; expires := Num 100 |} in
  let b := {| name := "b"; value := "2"; expires := Num 200 |} in
  let e := {| name := "e"; value := EmptyString; expires := Num 300 |} in
  (forall c, In c (snd (getCookies 100 [a; b; e])) -> ge_number 150 (expires c) = false) /\
  getCookies 150 (snd (getCookies 100 [a; b; e])) = ("b=2"%string, [b]).
Proof.
  intros a b e.
  assert (H : forall c, In c (snd (getCookies 100 [a; b; e])) ->
                        ge_number 150 (expires c) = false).
  { intros c [<-|[]]. reflexivity. }
  split; [exact H | exact (getCookies_again 100 150 [a; b; e] H)].
Defined.

Lemma nan_cookie_never_expires_witness :
  let k := {| name := "k"; value := "v"; expires := NaN |} in
  let b := {| name := "b"; value := "2"; expires := Num 200 |} in
  (In k [b; k] /\ expires k = NaN /\ value k <> EmptyString) /\
  In k (fold_left (fun cs d => snd (getCookies d cs)) [0; 250; 9000000000000000] [b; k]) /\
  forall d, JS.includes (fst (getCookies d [b; k])) "k=v" = true.
Proof.
  intros k b.
  assert (Hv : value k <> EmptyString) by discriminate.
  split; [repeat split; [right; left; reflexivity | exact Hv]|].
  exact (nan_cookie_never_expires k [0; 250; 9000000000000000] [b; k]
           (or_intror (or_introl eq_refl)) eq_refl Hv).
Defined.

Lemma updateCookies_normal_iff_witness :
  let raw := [ "a=1; expires=Wed, 01 Jan 2025 00:00:00 GMT";
               "b=2; Path=/; expires=not a date" ]%string in
  Forall (fun h => JS.includes h "expires=" = true) raw /\
  fst (@updateCookies Demo.site (Some raw) []) = Normal tt.
Proof.
  intros raw.
  assert (H : Forall (fun h => JS.includes h "expires=" = true) raw)
    by (repeat constructor).
  split; [exact H | exact (proj2 (@updateCookies_normal_iff Demo.site raw []) H)].
Defined.

Lemma last_header_wins_witness :
  let pre := [ "b=1; expires=Wed, 01 Jan 2025 00:00:00 GMT";
               "a=1; expires=Wed, 01 Jan 2025 00:00:00 GMT" ]%string in
  let h := "b=2; expires=Thu, 01 Jan 1970 00:00:01 GMT"%string in
  let post := [ "a=3; expires=Wed, 01 Jan 2025 00:00:00 GMT"%string ] in
  let c := {| name := "b"; value := "2"; expires := Num 1000 |} in
  (Forall (fun h' => @parse_cookie Demo.site h' <> None) pre /\
   @parse_cookie Demo.site h = Some c /\
   (forall h' c', In h' post -> @parse_cookie Demo.site h' = Some c' -> name c' <> name c)) /\
  In c (snd (@updateCookies Demo.site (Some (pre ++ h :: post)) [])).
Proof.
  intros pre h post c.
  assert (H1 : Forall (fun h' => @parse_cookie Demo.site h' <> None) pre)
    by (repeat constructor; vm_compute; discriminate).
  assert (H3 : forall h' c', In h' post -> @parse_cookie Demo.site h' = Some c' ->
                             name c' <> name c).
  { intros h' c' [<-|[]] Hp. vm_compute in Hp. injection Hp as <-. discriminate. }
  split; [repeat split; assumption|].
  exact (@last_header_wins Demo.site pre post h c [] H1 eq_refl H3).
Defined.

Lemma expired_header_removes_witness :
  let s := {| name := "sessionid"; value := "s3cr3t"; expires := Num 1735689600000 |} in
  let t := {| name := "csrftoken"; value := "c5rf"; expires := Num 1735689600000 |} in
  let h := "sessionid=gone; expires=Thu, 01 Jan 1970 00:00:01 GMT"%string in
  let c := {| name := "sessionid"; value := "gone"; expires := Num 1000 |} in
  let cookies' := snd (getCookies 2000 (snd (@updateCookies Demo.site (Some [h]) [s; t]))) in
  (NoDup (map name [s; t]) /\ @parse_cookie Demo.site h = Some c /\
   expires c = Num 1000 /\ 1000 <= 2000) /\
  ~ In (name c) (map name cookies') /\
  forall c', In c' [s; t] -> name c' <> name c -> kept 2000 c' = true -> In c' cookies'.
Proof.
  intros s t h c cookies'.
  assert (Hnd : NoDup (map name [s; t])).
  { repeat constructor; simpl; intuition discriminate. }
  assert (Hz : 1000 <= 2000) by lia.
  split; [repeat split; assumption|].
  exact (@expired_header_removes Demo.site [s; t] h c 1000 2000 Hnd eq_refl eq_refl Hz).
Defined.

Lemma stored_cookie_is_sent_witness :
  let h := "sessionid=s3cr3t; expires=Wed, 01 Jan 2025 00:00:00 GMT; HttpOnly"%string in
  let c := {| name := "sessionid"; value := "s3cr3t"; expires := Num 1735689600000 |} in
  let merged := snd (@updateCookies Demo.site (Some [h]) []) in
  (@parse_cookie Demo.site h = Some c /\
   ge_number 1700000000000 (expires c) = false /\
   value c <> EmptyString) /\
  JS.includes (fst (getCookies 1700000000000 merged)) "sessionid=s3cr3t" = true /\
  In c (snd (getCookies 1700000000000 merged)).
Proof.
  intros h c merged.
  assert (Hv : value c <> EmptyString) by discriminate.
  split; [repeat split; exact Hv|].
  exact (@stored_cookie_is_sent Demo.site [] h c 1700000000000 eq_refl eq_refl Hv).
Defined.

Lemma fetch_rejects_cookie_without_expires_witness :
  let m := @mkManager Demo.session_site [] 0 [] in
  let h := "sessionid=s3cr3t; HttpOnly; Path=/"%string in
  let get := {| method := None; redirect := None;
                headers := [("cookie", EmptyString)]%string; body := None |} in
  (@node_fetch Demo.session_site "https://myapp.com/protected" get 1
     = (Some Demo.session_page, 1) /\
   set_cookie Demo.session_page = Some [h] /\
   In h [h] /\
   JS.includes h "expires=" = false) /\
  fst (@fetch_skipLogin Demo.session_site Demo.options "/protected" None m)
    = Throw TypeError /\
  sent (snd (@fetch_skipLogin Demo.session_site Demo.options "/protected" None m))
    = [("https://myapp.com/protected"%string, get)].
Proof.
  intros m h get.
  split; [repeat split; left; reflexivity|].
  exact (@fetch_rejects_cookie_without_expires Demo.session_site Demo.options
           "/protected" None m Demo.session_page 1 [h] h
           eq_refl eq_refl (or_introl eq_refl) eq_refl).
Defined.

Lemma fetch_outcome_witness :
  let get := {| method := None; redirect := None;
                headers := [("cookie", EmptyString)]%string; body := None |} in
  let url := "https://myapp.com/protected"%string in
  let off := @mkManager Demo.offline [] 0 [] in
  let on := Demo.fresh 0 in
  let c := {| name := "csrftoken"; value := "c5rf"; expires := Num 1735689600000 |} in
  let on' := @mkManager Demo.site [c] 1 [(url, get)] in
  (@node_fetch Demo.offline url get 1 = (None, 1) /\
   @fetch_skipLogin Demo.offline Demo.options "/protected" None off
     = (Throw FetchError, @mkManager Demo.offline [] 1 [(url, get)])) /\
  (@fetch_skipLogin Demo.site Demo.options "/protected" None on
     = (Normal Demo.login_page, on') /\
   (exists w', @node_fetch Demo.site url get 1 = (Some Demo.login_page, w')) /\
   @updateCookies Demo.site (set_cookie Demo.login_page) [] = (Normal tt, [c])).
Proof.
  intros get url off on c on'.
  split.
  - split; [reflexivity|].
    exact (proj1 (@fetch_outcome Demo.offline Demo.options "/protected" None off)
             1 eq_refl).
  - split; [reflexivity|].
    exact (proj2 (@fetch_outcome Demo.site Demo.options "/protected" None on)
             Demo.login_page on' eq_refl).
Defined.

Lemma login_stops_at_page_witness :
  let get := {| method := None; redirect := None;
                headers := [("cookie", EmptyString)]%string; body := None |} in
  let m := @mkManager Demo.offline [] 0 [] in
  let m1 := @mkManager Demo.offline [] 1 [("https://myapp.com/login/"%string, get)] in
  (truthy (middlewaretokenName Demo.options) = true /\
   @fetch_skipLogin Demo.offline Demo.options (loginPath Demo.options) None m
     = (Throw FetchError, m1)) /\
  @login Demo.offline Demo.options m = (Throw FetchError, m1) /\
  sent (snd (@login Demo.offline Demo.options m))
    = [("https://myapp.com/login/"%string, get)].
Proof.
  intros get m m1.
  split; [split; reflexivity|].
  exact (@login_stops_at_page Demo.offline Demo.options m m1 FetchError eq_refl eq_refl).
Defined.

Lemma fetch_with_session_name_witness :
  let m := Demo.stale 2000 in
  let c := {| name := "sessionid"; value := "s3cr3t"; expires := Num 1000 |} in
  (In c (this_cookies m) /\
   JS.includes (name c) (sessionidCookieName Demo.options) = true) /\
  @fetch Demo.site Demo.options "/protected" None false m =
    @fetch_skipLogin Demo.site Demo.options "/protected" None (snd (@getCookiesM Demo.site m)) /\
  sent (snd (@fetch Demo.site Demo.options "/protected" None false m)) =
    [("https://myapp.com/protected",
      {| method := None; redirect := None;
         headers := [("cookie", EmptyString)]; body := None |})%string].
Proof.
  intros m c.
  split; [split; [left; reflexivity | reflexivity]|].
  exact (@fetch_with_session_name Demo.site Demo.options "/protected" None m c
           (or_introl eq_refl) eq_refl).
Defined.

Lemma session_established_witness :
  let cfg := Demo.options in
  let post := Some (loginOptions cfg "abc123") in
  let m := Demo.fresh 1700000000000 in
  let m1 := snd (@fetch_skipLogin Demo.site cfg "/login/" post m) in
  let h := "sessionid=s3cr3t; expires=Wed, 01 Jan 2025 00:00:00 GMT; HttpOnly; Path=/"%string in
  let c := {| name := "sessionid"; value := "s3cr3t"; expires := Num 1735689600000 |} in
  (@fetch_skipLogin Demo.site cfg "/login/" post m = (Normal Demo.logged_in, m1) /\
   set_cookie Demo.logged_in = Some [h] /\
   In h [h] /\
   @parse_cookie Demo.site h = Some c /\
   name c = sessionidCookieName cfg) /\
  In (sessionidCookieName cfg) (map name (this_cookies m1)) /\
  sent (snd (@fetch Demo.site cfg "/protected" None false m1)) =
    sent m1 ++
    [("https://myapp.com/protected",
      {| method := None; redirect := None;
         headers := [("cookie", "sessionid=s3cr3t")]; body := None |})%string].
Proof.
  intros cfg post m m1 h c.
  split; [repeat split; left; reflexivity|].
  exact (@session_established Demo.site cfg "/login/" post "/protected" None m m1
           Demo.logged_in [h] h c eq_refl eq_refl (or_introl eq_refl) eq_refl eq_refl).
Defined.

Lemma fetch_forwards_request_witness :
  let m := Demo.fresh 7 in
  let caller := [("Cookie", "mine=1"); ("accept", "text/html")]%string in
  let plain := {| o_method := Some "PUT"%string; o_redirect := None;
                  o_headers := Some (HeadersObject caller);
                  o_body := Some "x=1"%string |} in
  let inst := {| o_method := None; o_redirect := None;
                 o_headers := Some (HeadersInstance caller); o_body := None |} in
  let rows := {| o_method := None; o_redirect := None;
                 o_headers := Some (HeadersArray [["accept"; "text/html"]%string]);
                 o_body := None |} in
  let request (o : RequestOptions) :=
    map snd (sent (snd (@fetch Demo.site Demo.options "/p" (Some o) true m))) in
  request plain =
    [ {| method := Some "PUT"; redirect := None;
         headers := [("Cookie", "mine=1"); ("accept", "text/html");
                     ("cookie", EmptyString)];
         body := Some "x=1" |} ]%string /\
  request inst =
    [ {| method := None; redirect := None;
         headers := [("cookie", EmptyString)]; body := None |} ]%string /\
  request rows =
    [ {| method := None; redirect := None;
         headers := [("0", "accept,text/html"); ("cookie", EmptyString)];
         body := None |} ]%string /\
  (forall o, exists r : RequestInit,
     sent (snd (@fetch Demo.site Demo.options "/p" (Some o) true m))
       = sent m ++ [("https://myapp.com/p"%string, r)] /\
     get_property "cookie" (headers r) = Some EmptyString).
Proof.
  intros m caller plain inst rows request.
  split; [reflexivity|]. split; [reflexivity|]. split; [reflexivity|].
  intros o.
  destruct (@fetch_forwards_request Demo.site Demo.options "/p" o m)
    as (r & Hs & _ & _ & _ & Hc & _).
  exists r. split; [exact Hs | exact Hc].
Defined.

Lemma fetch_stops_at_unusable_page_witness :
  let get := {| method := None; redirect := None;
                headers := [("cookie", EmptyString)]%string; body := None |} in
  let url := "https://myapp.com/login/"%string in
  let c := {| name := "csrftoken"; value := "c5rf"; expires := Num 1735689600000 |} in
  let m := Demo.fresh 7 in
  let m1 := @mkManager Demo.site [c] 9 [(url, get)] in
  let b := @mkManager Demo.broken_site [] 7 [] in
  let b1 := @mkManager Demo.broken_site [] 9 [(url, get)] in
  ((JS.includes (@cookie_header Demo.site m) "sessionid" = false /\
    middlewaretokenName Demo.options_bad_pattern = Some "csrf(token"%string /\
    @fetch_skipLogin Demo.site Demo.options_bad_pattern "/login/" None
      (snd (@getCookiesM Demo.site m)) = (Normal Demo.login_page, m1) /\
    @new_RegExp Demo.site "csrf(token" = None) /\
   @fetch Demo.site Demo.options_bad_pattern "/protected" None false m
     = (Throw SyntaxError, m1)) /\
  ((JS.includes (@cookie_header Demo.broken_site b) "sessionid" = false /\
    middlewaretokenName Demo.options = Some "csrfmiddlewaretoken"%string /\
    @fetch_skipLogin Demo.broken_site Demo.options "/login/" None
      (snd (@getCookiesM Demo.broken_site b)) = (Normal Demo.broken_page, b1) /\
    @new_RegExp Demo.broken_site "csrfmiddlewaretoken" <> None /\
    text_rejects Demo.broken_page = true) /\
   @fetch Demo.broken_site Demo.options "/protected" None false b
     = (Throw FetchError, b1)).
Proof.
  intros get url c m m1 b b1.
  assert (N1 : "csrf(token"%string <> EmptyString) by discriminate.
  assert (N2 : "csrfmiddlewaretoken"%string <> EmptyString) by discriminate.
  assert (V : @new_RegExp Demo.broken_site "csrfmiddlewaretoken" <> None) by discriminate.
  split.
  - split; [repeat split|].
    exact (proj1 (@fetch_stops_at_unusable_page Demo.site Demo.options_bad_pattern
                    "/protected" None "csrf(token" m m1 Demo.login_page
                    eq_refl eq_refl N1 eq_refl) eq_refl).
  - split; [repeat split; exact V|].
    exact (proj1 (proj2 (@fetch_stops_at_unusable_page Demo.broken_site Demo.options
                           "/protected" None "csrfmiddlewaretoken" b b1 Demo.broken_page
                           eq_refl eq_refl N2 eq_refl)) V eq_refl).
Defined.
